(** * ElementCloner: cloning an element with its scroll limits removed

    A shallow embedding of [src/element-cloner.ts] (class [ElementCloner])
    and of the part of the DOM it talks to.

    - An element is a tree node with an identity, a tag name, attributes,
      an inline style declaration and its element children.  Character
      data is left out: no operation of the class reads or writes it.
    - The document is the state every operation threads: the tree under
      [document.body], the elements that precede it in tree order, and the
      allocator of node identities.
    - An operation either returns a value or throws; both outcomes carry
      the document they leave behind.
    - Layout extents and computed styles come from the browser; they are
      read through the interface [RenderingEngine].
    - The assignments the class makes on a style object with its own
      literal names and values are written out.  What a style object does
      with a name and a value chosen by the caller, and what it answers
      when read under an arbitrary name, is the browser's: the interface
      [StyleObject]. *)

From stdpp Require Import gmap strings list fin_maps.
From Stdlib Require Import ZArith.

Open Scope string_scope.
Open Scope list_scope.
#[local] Set Warnings "-register-all".

(** ** Elements *)

(** The declarations a style object holds, by the script names of the
    properties ([maxHeight], [overflowY], [zIndex], ...).  The longhand
    properties are kept as declared; of the shorthands, [overflow] is
    kept too, under its own name, with the value it reads. *)
Abbreviation CSSStyleDeclaration := (gmap string string).

(** Identity of a node.  Two handles denote the same node iff they carry
    the same identity. *)
Abbreviation NodeId := positive.

#[local] Unset Elimination Schemes.
(** An element with the subtree of elements below it.  [attributes] are
    the content attributes other than [style], whose content is the field
    [style]. *)
Inductive HTMLElement : Type :=
  Elem {
    nid : NodeId;
    tagName : string;
    attributes : gmap string string;
    style : CSSStyleDeclaration;
    children : list HTMLElement
  }.
#[local] Set Elimination Schemes.

(** Structural induction over element trees: the property holds of an
    element as soon as it holds of all its children. *)
Section HTMLElement_ind.
Variable P : HTMLElement -> Prop.
Hypothesis step : forall i t a s cs, Forall P cs -> P (Elem i t a s cs).

Fixpoint HTMLElement_ind (e : HTMLElement) : P e :=
  match e with
  | Elem i t a s cs =>
      step i t a s cs
        ((fix all (l : list HTMLElement) : Forall P l :=
            match l with
            | [] => @List.Forall_nil _ P
            | c :: r => @List.Forall_cons _ P c r (HTMLElement_ind c) (all r)
            end) cs)
  end.
End HTMLElement_ind.

(** Inclusive descendants of an element, in tree order. *)
Fixpoint subtree (e : HTMLElement) : list HTMLElement :=
  e :: flat_map subtree (children e).

(** [element.style[p] = v] *)
Definition setStyle (p v : string) (e : HTMLElement) : HTMLElement :=
  Elem (nid e) (tagName e) (attributes e) (<[p := v]> (style e)) (children e).

(** What [style.overflow] reads, given the two longhands: their common
    value, or the two values, or nothing when one of them is not declared. *)
Definition overflowShorthand (s : CSSStyleDeclaration) : option string :=
  match s !! "overflowX", s !! "overflowY" with
  | Some x, Some y => Some (if decide (x = y) then x else x +:+ " " +:+ y)
  | _, _ => None
  end.

(** [style.overflowY = v] for an overflow keyword [v]: the longhand is
    declared, and the shorthand reads accordingly. *)
Definition assignOverflowY (v : string) (s : CSSStyleDeclaration)
  : CSSStyleDeclaration :=
  let s := <["overflowY" := v]> s in
  match overflowShorthand s with
  | Some o => <["overflow" := o]> s
  | None => delete "overflow" s
  end.

(** [style.overflow = v] for an overflow keyword [v]: a shorthand, which
    declares both longhands. *)
Definition assignOverflow (v : string) (s : CSSStyleDeclaration)
  : CSSStyleDeclaration :=
  <["overflow" := v]> (<["overflowX" := v]> (<["overflowY" := v]> s)).

(** [static removeScrollLimits(element: HTMLElement): void]

    The three assignments on the element itself, then the loop over
    [element.children] calling the function on each child.  The element is
    updated in place; the function returns the updated subtree. *)
Fixpoint removeScrollLimits (element : HTMLElement) : HTMLElement :=
  match element with
  | Elem i t a s cs =>
      let s := <["maxHeight" := "unset"]> s in
      let s := assignOverflowY "visible" s in
      let s := assignOverflow "visible" s in
      Elem i t a s (map removeScrollLimits cs)
  end.

(** ** The document *)

(** [preceding] holds the elements of the document that come before
    [document.body] in tree order (the [head] element, for one); [nextId]
    is the identity the next created node receives. *)
Record Document := mkDocument {
  preceding : list HTMLElement;
  body : HTMLElement;
  nextId : NodeId
}.

Definition setBody (b : HTMLElement) (d : Document) : Document :=
  mkDocument (preceding d) b (nextId d).

(** ** Completions: return or throw, with the document left behind *)

Inductive Exn :=
| Error (message : string)
| DOMException (name : string)
| TypeError.

Inductive Completion (A : Type) :=
| Return (a : A) (d : Document)
| Throw (e : Exn) (d : Document).
Arguments Return {A} a d.
Arguments Throw {A} e d.

Definition DOM (A : Type) : Type := Document -> Completion A.

Definition ret {A} (a : A) : DOM A := fun d => Return a d.
Definition bind {A B} (m : DOM A) (k : A -> DOM B) : DOM B :=
  fun d => match m d with
           | Return a d' => k a d'
           | Throw e d' => Throw e d'
           end.

Notation "'let!' x := m 'in' k" := (bind m (fun x => k))
  (at level 10, x name, m at level 200, k at level 200).

Definition throw {A} (e : Exn) : DOM A := fun d => Throw e d.
Definition gets {A} (f : Document -> A) : DOM A := fun d => Return (f d) d.
Definition modify (f : Document -> Document) : DOM unit :=
  fun d => Return tt (f d).

(** ** The DOM operations the class calls *)

(** The ID of an element: its [id] attribute, when not empty. *)
Definition elementId (e : HTMLElement) : option string :=
  match attributes e !! "id" with
  | Some s => if decide (s = "") then None else Some s
  | None => None
  end.

(** First element of the subtree, in tree order, whose ID is [id]. *)
Fixpoint findById (id : string) (e : HTMLElement) : option HTMLElement :=
  if decide (elementId e = Some id) then Some e
  else (fix first (cs : list HTMLElement) : option HTMLElement :=
          match cs with
          | [] => None
          | c :: cs' =>
              match findById id c with
              | Some x => Some x
              | None => first cs'
              end
          end) (children e).

(** [document.getElementById(id)], [null] as [None]. *)
Definition getElementById (d : Document) (id : string) : option HTMLElement :=
  hd_error (omap (findById id) (preceding d ++ [body d])).

(** [node.cloneNode(true)]: a copy of the whole subtree made of new nodes.
    Tag, attributes and inline style are copied; identities are taken from
    the allocator, which is returned advanced. *)
Fixpoint cloneNode (e : HTMLElement) (next : NodeId) : HTMLElement * NodeId :=
  match e with
  | Elem _ t a s cs =>
      let '(cs', next') :=
        (fix copies (cs : list HTMLElement) (n : NodeId)
           : list HTMLElement * NodeId :=
           match cs with
           | [] => ([], n)
           | c :: r =>
               let '(c', n1) := cloneNode c n in
               let '(r', n2) := copies r n1 in
               (c' :: r', n2)
           end) cs (Pos.succ next) in
      (Elem next t a s cs', next')
  end.

(** [element.cloneNode(true)] as an operation: the copy is detached, and
    the document only has its allocator advanced. *)
Definition cloneNode_deep (element : HTMLElement) : DOM HTMLElement :=
  fun d =>
    let '(c, next) := cloneNode element (nextId d) in
    Return c (mkDocument (preceding d) (body d) next).

(** [other] is an inclusive descendant of [node] ([node.contains(other)]). *)
Fixpoint contains (node : HTMLElement) (other : NodeId) : bool :=
  bool_decide (nid node = other)
  || existsb (fun c => contains c other) (children node).

(** [parent.appendChild(child)] for a [child] that has no parent. *)
Definition appendChild (parent child : HTMLElement) : HTMLElement :=
  Elem (nid parent) (tagName parent) (attributes parent) (style parent)
       (children parent ++ [child]).

(** [parent.removeChild(child)]: [None] stands for the [NotFoundError]
    the DOM raises when [child] is not a child of [parent].  Identities
    are unique, so at most one child is taken out. *)
Definition removeChild (parent : HTMLElement) (child : NodeId)
  : option HTMLElement :=
  if existsb (fun c => bool_decide (nid c = child)) (children parent)
  then Some (Elem (nid parent) (tagName parent) (attributes parent)
               (style parent)
               (filter (fun c => nid c ≠ child) (children parent)))
  else None.

(** [document.body.appendChild(child)] *)
Definition body_appendChild (child : HTMLElement) : DOM unit :=
  modify (fun d => setBody (appendChild (body d) child) d).

(** [document.body.removeChild(child)] *)
Definition body_removeChild (child : NodeId) : DOM unit :=
  fun d => match removeChild (body d) child with
           | Some b => Return tt (setBody b d)
           | None => Throw (DOMException "NotFoundError") d
           end.

(** [document.body.contains(other)] *)
Definition body_contains (other : NodeId) : DOM bool :=
  gets (fun d => contains (body d) other).

(** The node with identity [n] in the subtree of [e], if there is one. *)
Fixpoint getNode (n : NodeId) (e : HTMLElement) : option HTMLElement :=
  if decide (nid e = n) then Some e
  else (fix first (cs : list HTMLElement) : option HTMLElement :=
          match cs with
          | [] => None
          | c :: cs' =>
              match getNode n c with
              | Some x => Some x
              | None => first cs'
              end
          end) (children e).

(** The subtree of [e] with the node of identity [n] taken out from
    wherever it sits below [e]. *)
Fixpoint withoutNode (n : NodeId) (e : HTMLElement) : HTMLElement :=
  match e with
  | Elem i t a s cs =>
      Elem i t a s
        ((fix rest (cs : list HTMLElement) : list HTMLElement :=
            match cs with
            | [] => []
            | c :: cs' =>
                if decide (nid c = n) then rest cs'
                else withoutNode n c :: rest cs'
            end) cs)
  end.

(** The subtree of [e] with [child] appended to the children of the node
    of identity [p]. *)
Fixpoint appendBelow (p : NodeId) (child : HTMLElement) (e : HTMLElement)
  : HTMLElement :=
  match e with
  | Elem i t a s cs =>
      if decide (i = p) then Elem i t a s (cs ++ [child])
      else Elem i t a s (map (appendBelow p child) cs)
  end.

(** [parent.appendChild(child)] for two nodes below [document.body], as any
    script of the page may call it: [child] leaves its place and becomes
    the last child of [parent].  ([parent] is not inside [child].) *)
Definition node_appendChild (parent child : NodeId) : DOM unit :=
  fun d => match getNode child (body d) with
           | Some c =>
               Return tt
                 (setBody (appendBelow parent c (withoutNode child (body d))) d)
           | None => Return tt d
           end.

(** The rendering engine of the page: the layout extents of an attached
    node and the computed style of an element are produced by the browser,
    not by the class, and are read through this interface. *)
Class RenderingEngine := {
  scrollWidthOf : Document -> NodeId -> Z;
  scrollHeightOf : Document -> NodeId -> Z;
  offsetWidthOf : Document -> NodeId -> Z;
  offsetHeightOf : Document -> NodeId -> Z;
  getComputedStyle : Document -> HTMLElement -> CSSStyleDeclaration
}.

(** Reading a property of a style declaration; a property that was never
    assigned reads as the empty string. *)
Definition getProperty (s : CSSStyleDeclaration) (p : string) : string :=
  default "" (s !! p).

(** A value read from an object. *)
Inductive JSValue :=
| JSUndefined
| JSNull
| JSString (s : string)
| JSNumber (n : Z)
| JSFunction.

(** The style object of the browser, for what the class leaves to it. *)
Class StyleObject := {
  (** [style[name] = value] for a name and a value of the caller's: the
      declarations the object holds afterwards, or [None] when the
      assignment throws (a read-only member).  The object may ignore the
      value, declare other properties than the one named (a shorthand),
      or replace all it holds ([cssText]). *)
  assignProperty : string -> string -> CSSStyleDeclaration
                   -> option CSSStyleDeclaration;
  (** [style[name]] for a name under which the object holds no
      declaration: a method, [length], [cssText], a dashed name, a
      shorthand, a property that is not set. *)
  readMember : CSSStyleDeclaration -> string -> JSValue
}.

(** [style[name]]: a declaration the object holds reads as its value. *)
Definition readStyle `{StyleObject} (s : CSSStyleDeclaration) (name : string)
  : JSValue :=
  match s !! name with
  | Some v => JSString v
  | None => readMember s name
  end.

(** [Object.assign(target, source)] on a style object: the own properties
    of [source] are assigned on [target] one after the other, in the order
    of [source]; an assignment that throws ends it ([None]). *)
Fixpoint Object_assign `{StyleObject} (target : CSSStyleDeclaration)
    (source : list (string * string)) : option CSSStyleDeclaration :=
  match source with
  | [] => Some target
  | (name, value) :: rest =>
      match assignProperty name value target with
      | Some target' => Object_assign target' rest
      | None => None
      end
  end.

(** ** Types of [element-cloner.ts] *)

(** [CloneOptions].  A property of an options object is either missing
    ([None]) or present; a present [position] holds [undefined]
    ([Some None]) or a string.  [styles] lists its own properties in their
    order. *)
Record CloneOptions := mkOptions {
  position : option (option string);
  styles : option (list (string * string))
}.

(** The default argument [options = {}]. *)
Definition noOptions : CloneOptions := mkOptions None None.

(** Reading [options.position]: a missing property reads as [undefined]. *)
Definition get_position (options : CloneOptions) : option string :=
  match position options with
  | Some v => v
  | None => None
  end.

(** [ElementTarget = string | HTMLElement].  A handle may be [null]; a
    handle that is not stands for the element it points to, in or out of
    the document, which the class only reads. *)
Inductive ElementTarget :=
| TargetId (id : string)
| TargetElement (handle : option HTMLElement).

Record ElementDimensions := mkDimensions {
  width : Z;
  height : Z;
  offsetWidth : Z;
  offsetHeight : Z
}.

Record ScrollLimitInfo := mkScrollLimitInfo {
  hasMaxHeight : bool;
  hasOverflow : bool;
  hasOverflowY : bool;
  maxHeight : string;
  overflow : string;
  overflowY : string
}.

(** [ClonedElementData]: [element] is the clone the two closures captured;
    [remove] and [getDimensions] below take the record they belong to. *)
Record ClonedElementData := mkClonedElementData {
  element : NodeId
}.

(** ** class ElementCloner *)

(** [typeof target === "string" ? document.getElementById(target) : target] *)
Definition resolve (target : ElementTarget) (d : Document)
  : option HTMLElement :=
  match target with
  | TargetId id => getElementById d id
  | TargetElement handle => handle
  end.

(** The block "Apply positioning options" of [cloneElement]. *)
Definition applyPosition (options : CloneOptions) (clonedElement : HTMLElement)
  : HTMLElement :=
  if decide (get_position options = Some "off-screen") then
    let clonedElement := setStyle "position" "absolute" clonedElement in
    let clonedElement := setStyle "left" "-9999px" clonedElement in
    let clonedElement := setStyle "top" "0" clonedElement in
    setStyle "zIndex" "-1" clonedElement
  else if decide (get_position options = Some "visible") then
    let clonedElement := setStyle "position" "relative" clonedElement in
    setStyle "display" "block" clonedElement
  else clonedElement.

(** The element with another inline style. *)
Definition withStyle (s : CSSStyleDeclaration) (e : HTMLElement) : HTMLElement :=
  Elem (nid e) (tagName e) (attributes e) s (children e).

(** The block "Apply additional styles if provided" of [cloneElement];
    [None] when [Object.assign] throws. *)
Definition applyStyles `{StyleObject} (options : CloneOptions)
    (clonedElement : HTMLElement) : option HTMLElement :=
  match styles options with
  | Some st =>
      match Object_assign (style clonedElement) st with
      | Some s => Some (withStyle s clonedElement)
      | None => None
      end
  | None => Some clonedElement
  end.

(** [static cloneElement(target, options = {}): HTMLElement] *)
Definition cloneElement `{StyleObject} (target : ElementTarget)
    (options : CloneOptions) : DOM HTMLElement :=
  let! element := gets (resolve target) in
  match element with
  | None => throw (Error "Element not found")
  | Some element =>
      let! clonedElement := cloneNode_deep element in
      let clonedElement := removeScrollLimits clonedElement in
      let clonedElement := applyPosition options clonedElement in
      match applyStyles options clonedElement with
      | Some clonedElement => ret clonedElement
      | None => throw TypeError
      end
  end.

(** [{ position: "off-screen", ...options }] *)
Definition withOffScreenDefault (options : CloneOptions) : CloneOptions :=
  mkOptions
    (match position options with
     | Some v => Some v
     | None => Some (Some "off-screen")
     end)
    (styles options).

(** [static cloneAndAddToDOM(target, options = {}): ClonedElementData] *)
Definition cloneAndAddToDOM `{StyleObject} (target : ElementTarget)
    (options : CloneOptions) : DOM ClonedElementData :=
  let! clonedElement := cloneElement target (withOffScreenDefault options) in
  let! _ := body_appendChild clonedElement in
  ret (mkClonedElementData (nid clonedElement)).

(** The closure [remove] of the record returned by [cloneAndAddToDOM]. *)
Definition remove (data : ClonedElementData) : DOM unit :=
  let! present := body_contains (element data) in
  if present : bool then body_removeChild (element data) else ret tt.

(** Reading the four extents of a node, as both [getDimensions] and
    [getFullDimensions] do. *)
Definition readDimensions `{RenderingEngine} (n : NodeId)
  : DOM ElementDimensions :=
  gets (fun d => mkDimensions (scrollWidthOf d n) (scrollHeightOf d n)
                              (offsetWidthOf d n) (offsetHeightOf d n)).

(** The closure [getDimensions] of the record returned by
    [cloneAndAddToDOM]. *)
Definition getDimensions `{RenderingEngine} (data : ClonedElementData)
  : DOM ElementDimensions :=
  readDimensions (element data).

(** [static getFullDimensions(target): ElementDimensions] *)
Definition getFullDimensions `{RenderingEngine} `{StyleObject}
    (target : ElementTarget) : DOM ElementDimensions :=
  let! clonedElement := cloneElement target (mkOptions (Some (Some "off-screen")) None) in
  let! _ := body_appendChild clonedElement in
  let! dimensions := readDimensions (nid clonedElement) in
  let! _ := body_removeChild (nid clonedElement) in
  ret dimensions.

(** [static checkScrollLimits(target): ScrollLimitInfo] *)
Definition checkScrollLimits `{RenderingEngine} (target : ElementTarget)
  : DOM ScrollLimitInfo :=
  let! element := gets (resolve target) in
  match element with
  | None => throw (Error "Element not found")
  | Some element =>
      let! computedStyle := gets (fun d => getComputedStyle d element) in
      ret (mkScrollLimitInfo
              (bool_decide (getProperty computedStyle "maxHeight" ≠ "none"))
              (bool_decide (getProperty computedStyle "overflow" ≠ "visible"))
              (bool_decide (getProperty computedStyle "overflowY" ≠ "visible"))
              (getProperty computedStyle "maxHeight")
              (getProperty computedStyle "overflow")
              (getProperty computedStyle "overflowY"))
  end.

(** ** Properties the specification speaks about *)

(** The three properties [removeScrollLimits] assigns to by name. *)
Definition scrollProperties : list string :=
  ["maxHeight"; "overflowY"; "overflow"].


(** [sameButScroll e e']: the two subtrees have the same shape, node for
    node the same identity, tag and attributes, and inline styles that
    agree on every property other than the three scroll properties. *)
Inductive sameButScroll : HTMLElement -> HTMLElement -> Prop :=
| SameButScroll i t a s s' cs cs' :
    (forall p, p ∉ scrollProperties -> s' !! p = s !! p) ->
    Forall2 sameButScroll cs cs' ->
    sameButScroll (Elem i t a s cs) (Elem i t a s' cs').


(** The styles of the [visible] placement. *)
Definition visibleStyles : CSSStyleDeclaration :=
  {[ "position" := "relative"; "display" := "block" ]}.

(** The properties the two placements write. *)
Definition placementProperties : list string :=
  ["position"; "left"; "top"; "zIndex"; "display"].


(** Every identity in the subtree is below [n]. *)
Definition idsBelow (n : NodeId) (e : HTMLElement) : Prop :=
  Forall (fun x => (nid x < n)%positive) (subtree e).

(** The allocator invariant: no node of the document carries an identity
    the allocator has yet to hand out. *)
Definition allocatorFresh (d : Document) : Prop :=
  Forall (idsBelow (nextId d)) (preceding d) ∧ idsBelow (nextId d) (body d).


(** The properties [removeScrollLimits] leaves other than they were:
    the three it names, and [overflowX], which the shorthand [overflow]
    declares as well. *)
Definition normalisedProperties : list string :=
  ["maxHeight"; "overflowY"; "overflow"; "overflowX"].

(** [sameButNormalised e e']: as [sameButScroll], with inline styles that
    agree on every property other than the four of
    [normalisedProperties]. *)
Inductive sameButNormalised : HTMLElement -> HTMLElement -> Prop :=
| SameButNormalised i t a s s' cs cs' :
    (forall p, p ∉ normalisedProperties -> s' !! p = s !! p) ->
    Forall2 sameButNormalised cs cs' ->
    sameButNormalised (Elem i t a s cs) (Elem i t a s' cs').

(** The properties of the caller's [styles], in order; none when the
    options have no [styles]. *)
Definition callerPairs (options : CloneOptions) : list (string * string) :=
  default [] (styles options).

(** No assignment of the list throws, whatever the object holds. *)
Definition accepted `{StyleObject} (st : list (string * string)) : Prop :=
  forall name value, (name, value) ∈ st ->
    forall s, is_Some (assignProperty name value s).

(** The object keeps the value under the name it was assigned to. *)
Definition storedAsWritten `{StyleObject} (name value : string) : Prop :=
  forall s s', assignProperty name value s = Some s' -> s' !! name = Some value.

(** No assignment of the list changes what the object holds for [p]. *)
Definition leavesAlone `{StyleObject} (st : list (string * string))
    (p : string) : Prop :=
  forall name value, (name, value) ∈ st ->
    forall s s', assignProperty name value s = Some s' -> s' !! p = s !! p.

(** ** A style object, for examples *)

(** The keywords of [overflow] and its longhands. *)
Definition overflowKeywords : list string :=
  ["visible"; "hidden"; "clip"; "scroll"; "auto"].

(** [style.overflowX = v], as [assignOverflowY]. *)
Definition assignOverflowX (v : string) (s : CSSStyleDeclaration)
  : CSSStyleDeclaration :=
  let s := <["overflowX" := v]> s in
  match overflowShorthand s with
  | Some o => <["overflow" := o]> s
  | None => delete "overflow" s
  end.

(** A few of the things a browser's style object does: assigning to
    [length] or [parentRule] throws; [overflow] is a shorthand that takes
    a keyword and declares both longhands; the longhands take a keyword; a
    value that is no keyword is ignored; any other name keeps the value
    it is given.  Methods read as functions, [length] as the number of
    longhand declarations, a dashed name as its script name; any other
    name the object holds nothing for reads as [undefined]. *)
#[export] Instance exampleStyleObject : StyleObject := {|
  assignProperty name value s :=
    if decide (name ∈ ["length"; "parentRule"]) then None
    else if decide (name ∈ ["overflow"; "overflowX"; "overflowY"]) then
      if decide (value ∈ overflowKeywords) then
        if decide (name = "overflow") then Some (assignOverflow value s)
        else if decide (name = "overflowX") then Some (assignOverflowX value s)
        else Some (assignOverflowY value s)
      else Some s
    else Some (<[name := value]> s);
  readMember s name :=
    if decide (name ∈ ["getPropertyValue"; "setProperty"; "removeProperty";
                       "getPropertyPriority"; "item"]) then JSFunction
    else if decide (name = "length") then
      JSNumber (Z.of_nat (size (delete "overflow" s)))
    else if decide (name = "parentRule") then JSNull
    else if decide (name = "max-height") then
      from_option JSString (JSString "") (s !! "maxHeight")
    else if decide (name = "overflow-x") then
      from_option JSString (JSString "") (s !! "overflowX")
    else if decide (name = "overflow-y") then
      from_option JSString (JSString "") (s !! "overflowY")
    else JSUndefined
|}.

(** ** A small page, for examples *)

Definition para : HTMLElement :=
  Elem 4 "P" ∅ {[ "overflowY" := "scroll"; "color" := "red" ]} [].

Definition card : HTMLElement :=
  Elem 3 "DIV" {[ "id" := "card" ]}
       {[ "maxHeight" := "50px"; "overflow" := "hidden";
          "overflowX" := "hidden"; "overflowY" := "hidden" ]} [para].

Definition wrap : HTMLElement := Elem 5 "DIV" {[ "id" := "wrap" ]} ∅ [].

Definition page : Document :=
  mkDocument [Elem 2 "HEAD" ∅ ∅ []] (Elem 1 "BODY" ∅ ∅ [card; wrap]) 6.


(** A script that clones the card, moves the clone it was handed into the
    [wrap] element ([wrap.appendChild(data.element)]), and then releases
    it. *)
Definition moveThenRemove `{StyleObject} : DOM unit :=
  let! data := cloneAndAddToDOM (TargetId "card") noOptions in
  let! _ := node_appendChild (nid wrap) (element data) in
  remove data.

(** The page once an operation has handed out the two identities a copy
    of the card takes, with its tree as it was. *)
Definition pageAfterCopy : Document :=
  mkDocument (preceding page) (body page) 8.

(** An element whose only limit is on the horizontal axis. *)
Definition sideScroller : HTMLElement :=
  Elem 9 "DIV" ∅ {[ "overflowX" := "hidden" ]} [].

(** Caller styles that name a longhand and then its shorthand. *)
Definition longhandThenShorthand : CloneOptions :=
  mkOptions None (Some [("overflowY", "scroll"); ("overflow", "hidden")]).

(** An engine that lays every node out as an empty box and computes the
    style of an element from its inline style alone. *)
Definition inlineEngine : RenderingEngine := {|
  scrollWidthOf _ _ := 0%Z;
  scrollHeightOf _ _ := 0%Z;
  offsetWidthOf _ _ := 0%Z;
  offsetHeightOf _ _ := 0%Z;
  getComputedStyle _ e :=
    style e ∪ {[ "maxHeight" := "none"; "overflow" := "visible";
                 "overflowY" := "visible" ]}
|}.


(** ** [checkStyleSeted] and the style sheets of the page *)

(** A rule of a style sheet.  [selectorText] is [undefined] ([None]) on
    the rules that are not style rules. *)
Record CSSRule := mkRule {
  selectorText : option string;
  ruleStyle : CSSStyleDeclaration
}.

(** A style sheet of [document.styleSheets], seen through
    [cssRules || rules]: [None] when reading the rule list throws (a sheet
    of another origin). *)
Abbreviation CSSStyleSheet := (option (list CSSRule)).

(** A string-or-undefined value used as a condition. *)
Definition truthy (v : option string) : bool :=
  match v with
  | Some s => bool_decide (s ≠ "")
  | None => false
  end.

(** A value read from an object, used as a condition. *)
Definition toBoolean (v : JSValue) : bool :=
  match v with
  | JSUndefined | JSNull => false
  | JSString s => bool_decide (s ≠ "")
  | JSNumber n => bool_decide (n ≠ 0%Z)
  | JSFunction => true
  end.

(** [v !== s] for a string [s] *)
Definition strictNe (v : JSValue) (s : string) : bool :=
  match v with
  | JSString s' => bool_decide (s' ≠ s)
  | _ => true
  end.

(** [v && v !== "" && v !== "auto"], the test applied to the inline value
    and to the value of a rule. *)
Definition hasValue (v : JSValue) : bool :=
  toBoolean v && strictNe v "" && strictNe v "auto".

Section checkStyleSeted.
Context `{StyleObject}.
(** [document.styleSheets] *)
Variable styleSheets : list CSSStyleSheet.
(** [element.matches(selector)]; [None] when the call throws. *)
Variable matches : HTMLElement -> string -> option bool.

(** The loop over the rules of one sheet, inside the [try]: [Some true]
    when a rule set [hasCSSStyle] and the loop broke, [Some false] when
    the rules ran out, [None] when the body threw. *)
Fixpoint scanRules (element : HTMLElement) (property : string)
    (rules : list CSSRule) : option bool :=
  match rules with
  | [] => Some false
  | rule :: rest =>
      if truthy (selectorText rule) then
        match matches element (default "" (selectorText rule)) with
        | None => None
        | Some true =>
            if hasValue (readStyle (ruleStyle rule) property) then Some true
            else scanRules element property rest
        | Some false => scanRules element property rest
        end
      else scanRules element property rest
  end.

(** The loop over the sheets: the value of [hasCSSStyle] when it ends.
    A sheet whose [try] block threw is left by [continue]. *)
Fixpoint scanSheets (element : HTMLElement) (property : string)
    (sheets : list CSSStyleSheet) : bool :=
  match sheets with
  | [] => false
  | sheet :: rest =>
      match sheet with
      | None => scanSheets element property rest
      | Some rules =>
          match scanRules element property rules with
          | Some true => true
          | Some false => scanSheets element property rest
          | None => scanSheets element property rest
          end
      end
  end.

(** [static checkStyleSeted(element: HTMLElement | null, property: string)] *)
Definition checkStyleSeted (element : option HTMLElement) (property : string)
  : bool :=
  match element with
  | None => false
  | Some element =>
      if decide (property = "") then false
      else if hasValue (readStyle (style element) property) then true
      else scanSheets element property styleSheets
  end.
End checkStyleSeted.



(** ** [src/main.js]: [downloadImage] *)

(** [document.createElement(tag)]: a new element with no attribute, style
    or child, attached nowhere. *)
Definition createElement (tag : string) : DOM HTMLElement :=
  fun d => Return (Elem (nextId d) tag ∅ ∅ [])
             (mkDocument (preceding d) (body d) (Pos.succ (nextId d))).

(** [element[name] = value] for a reflected attribute ([href],
    [download]). *)
Definition setAttribute (name value : string) (e : HTMLElement) : HTMLElement :=
  Elem (nid e) (tagName e) (<[name := value]> (attributes e)) (style e)
       (children e).

Section downloadImage.
(** [link.click()]: what the listeners of the page and the browser's own
    action do to the document.  Exceptions of listeners do not reach the
    caller. *)
Variable click : HTMLElement -> Document -> Document.

(** [function downloadImage(dataURL, filename)] *)
Definition downloadImage (dataURL filename : string) : DOM unit :=
  let! link := createElement "A" in
  let link := setAttribute "href" dataURL link in
  let link := setAttribute "download" filename link in
  let! _ := body_appendChild link in
  let! _ := modify (click link) in
  body_removeChild (nid link).
End downloadImage.

(** ** More properties of clones *)




(** No two nodes of the subtree carry the same identity. *)
Definition uniqueIds (e : HTMLElement) : Prop :=
  NoDup (map nid (subtree e)).

(** ** Style sheets, for examples *)

(** A selector engine that knows ID selectors only and throws on [":bad"]. *)
Definition matchById (e : HTMLElement) (selector : string) : option bool :=
  if decide (selector = ":bad") then None
  else Some (bool_decide ((fun s => "#" +:+ s) <$> elementId e = Some selector)).

Definition sheets : list CSSStyleSheet :=
  [ None;
    Some [ mkRule (Some ":bad") ∅;
           mkRule (Some "#card") {[ "width" := "10px" ]} ];
    Some [ mkRule None {[ "height" := "1px" ]};
           mkRule (Some "#card") {[ "height" := "auto" ]};
           mkRule (Some "#wrap") {[ "height" := "7px" ]};
           mkRule (Some "#card") {[ "height" := "40px" ]} ] ].

(** The copy of the card [cloneAndAddToDOM] makes on the example page. *)
Definition cardClone : HTMLElement :=
  applyPosition (mkOptions (Some (Some "off-screen")) None)
    (removeScrollLimits (cloneNode card (nextId page)).1).

(** The example page with that copy attached to the body. *)
Definition pageAttached : Document :=
  mkDocument (preceding page) (appendChild (body page) cardClone) 8.

(** The example page after a script moved that copy into [wrap]. *)
Definition pageMoved : Document :=
  mkDocument (preceding page)
    (Elem 1 "BODY" ∅ ∅ [card; appendChild wrap cardClone]) 8.

(** Closed, decidable goals, such as membership in a list of literals. *)
Ltac by_computation := apply (bool_decide_unpack _); vm_compute; exact I.

(** * Theorems *)

(** ** [removeScrollLimits] *)

Lemma removeScrollLimits_nid e : nid (removeScrollLimits e) = nid e.
Proof. by destruct e. Qed.

(** The shorthand write makes what the write of the longhand before it
    did to [overflow] and [overflowY] irrelevant. *)
Lemma assignOverflow_assignOverflowY v w s :
  assignOverflow v (assignOverflowY w s) = assignOverflow v s.
Proof.
  unfold assignOverflow, assignOverflowY. apply map_eq. intros k.
  destruct (decide (k = "overflow")) as [->|Ho];
    [by rewrite !lookup_insert_eq|].
  rewrite !(lookup_insert_ne _ "overflow") by done.
  destruct (decide (k = "overflowX")) as [->|Hx];
    [by rewrite !lookup_insert_eq|].
  rewrite !(lookup_insert_ne _ "overflowX") by done.
  destruct (decide (k = "overflowY")) as [->|Hy];
    [by rewrite !lookup_insert_eq|].
  rewrite !(lookup_insert_ne _ "overflowY") by done.
  destruct (overflowShorthand _).
  - by rewrite lookup_insert_ne, lookup_insert_ne by done.
  - by rewrite lookup_delete_ne, lookup_insert_ne by done.
Qed.

Lemma removeScrollLimits_style e :
  style (removeScrollLimits e)
  = <["overflow" := "visible"]>
      (<["overflowX" := "visible"]>
         (<["overflowY" := "visible"]>
            (<["maxHeight" := "unset"]> (style e)))).
Proof. destruct e. simpl. by rewrite assignOverflow_assignOverflowY. Qed.

Lemma removeScrollLimits_children e :
  children (removeScrollLimits e) = map removeScrollLimits (children e).
Proof. by destruct e. Qed.


Lemma subtree_ids_removeScrollLimits e :
  map nid (subtree (removeScrollLimits e)) = map nid (subtree e).
Proof.
  induction e as [i t a s cs IH] using HTMLElement_ind. simpl. f_equal.
  induction IH as [|c r Hc _ IHr]; simpl; [done|].
  by rewrite !map_app, Hc, IHr.
Qed.


(** The card of the example page, normalised: both the card and the
    paragraph inside it lose their limits, and [color] stays. *)
Example removeScrollLimits_card :
  removeScrollLimits card
  = Elem 3 "DIV" {[ "id" := "card" ]}
      {[ "maxHeight" := "unset"; "overflow" := "visible";
         "overflowX" := "visible"; "overflowY" := "visible" ]}
      [Elem 4 "P" ∅
         {[ "maxHeight" := "unset"; "overflow" := "visible";
            "overflowX" := "visible"; "overflowY" := "visible";
            "color" := "red" ]} []].
Proof. vm_compute. reflexivity. Qed.

(** C9, as stated, fails: [overflowX] is none of the three properties, and
    an element that declares [overflow-x: hidden] comes out of
    [removeScrollLimits] with [overflowX] at [visible], because [overflow]
    is a shorthand. *)
Lemma removeScrollLimits_changes_overflowX :
  ("overflowX" ∉ scrollProperties)
  ∧ style sideScroller !! "overflowX" = Some "hidden"
  ∧ style (removeScrollLimits sideScroller) !! "overflowX" = Some "visible"
  ∧ ¬ sameButScroll sideScroller (removeScrollLimits sideScroller).
Proof.
  assert (Hx : "overflowX" ∉ scrollProperties).
  { unfold scrollProperties. rewrite !elem_of_cons, elem_of_nil.
    intros [?|[?|[?|[]]]]; discriminate. }
  split; [done|]. split; [by vm_compute|]. split; [by vm_compute|].
  intros Hsame. inversion Hsame as [i t a s s' cs cs' Hstyle Hcs]. subst.
  specialize (Hstyle "overflowX" Hx). vm_compute in Hstyle. discriminate.
Qed.

(** C9, amended.  [removeScrollLimits] leaves the shape of the subtree,
    and the identity, tag and attributes of every node in it, as they
    were, and changes no inline style property other than max-height,
    overflow, overflow-y and overflow-x. *)
Theorem removeScrollLimits_frame (E : HTMLElement) :
  sameButNormalised E (removeScrollLimits E).
Proof.
  induction E as [i t a s cs IH] using HTMLElement_ind.
  pose proof (removeScrollLimits_style (Elem i t a s cs)) as Hs.
  simpl in *. rewrite Hs. constructor.
  - intros p Hp. unfold normalisedProperties in Hp.
    rewrite !elem_of_cons, elem_of_nil in Hp.
    by rewrite !lookup_insert_ne by (intros <-; apply Hp; tauto).
  - induction IH; simpl; by constructor.
Qed.

(** ** Target resolution *)

(** What [cloneElement] does once its target is resolved: the copy is
    normalised, placed and given the caller's styles.  It is returned, or
    [TypeError] is thrown when an assignment of the caller's styles
    throws; either way the document only sees its allocator advance. *)
Lemma cloneElement_resolved `{StyleObject} target options d e :
  resolve target d = Some e ->
  cloneElement target options d
  = match applyStyles options (applyPosition options
            (removeScrollLimits (cloneNode e (nextId d)).1)) with
    | Some c =>
        Return c
          (mkDocument (preceding d) (body d) (cloneNode e (nextId d)).2)
    | None =>
        Throw TypeError
          (mkDocument (preceding d) (body d) (cloneNode e (nextId d)).2)
    end.
Proof.
  intros He. unfold cloneElement, bind, gets, cloneNode_deep. rewrite He.
  destruct (cloneNode e (nextId d)). simpl. by destruct (applyStyles _ _).
Qed.

Lemma cloneElement_unresolved `{StyleObject} target options d :
  resolve target d = None ->
  cloneElement target options d = Throw (Error "Element not found") d.
Proof. intros He. unfold cloneElement, bind, gets. by rewrite He. Qed.

Lemma resolve_None target d :
  resolve target d = None
  <-> (exists id, target = TargetId id ∧ getElementById d id = None)
      ∨ target = TargetElement None.
Proof.
  split.
  - destruct target as [id|[h|]]; simpl; intros Hr; eauto; discriminate.
  - intros [(id & -> & Hid)| ->]; done.
Qed.

(** C2.  When the target is a string that names no element of the
    document, or a null handle, each of [cloneElement], [cloneAndAddToDOM],
    [getFullDimensions] and [checkScrollLimits] throws the error
    "Element not found" and leaves the document exactly as it was. *)
Theorem unresolved_target_throws `{RenderingEngine} `{StyleObject}
    (target : ElementTarget) (options : CloneOptions) (d : Document) :
  (exists id, target = TargetId id ∧ getElementById d id = None)
  ∨ target = TargetElement None ->
  cloneElement target options d = Throw (Error "Element not found") d
  ∧ cloneAndAddToDOM target options d = Throw (Error "Element not found") d
  ∧ getFullDimensions target d = Throw (Error "Element not found") d
  ∧ checkScrollLimits target d = Throw (Error "Element not found") d.
Proof.
  intros Hr%resolve_None. repeat split.
  - by apply cloneElement_unresolved.
  - unfold cloneAndAddToDOM, bind. by rewrite cloneElement_unresolved.
  - unfold getFullDimensions, bind. by rewrite cloneElement_unresolved.
  - unfold checkScrollLimits, bind, gets. by rewrite Hr.
Qed.

Lemma unresolved_target_throws_witness :
  cloneElement (TargetId "nonexistent-id") noOptions page
    = Throw (Error "Element not found") page
  ∧ cloneAndAddToDOM (TargetId "nonexistent-id") noOptions page
    = Throw (Error "Element not found") page
  ∧ getFullDimensions (H := inlineEngine) (TargetId "nonexistent-id") page
    = Throw (Error "Element not found") page
  ∧ checkScrollLimits (H := inlineEngine) (TargetId "nonexistent-id") page
    = Throw (Error "Element not found") page.
Proof.
  apply (unresolved_target_throws (H := inlineEngine)).
  left. exists "nonexistent-id". split; [reflexivity | vm_compute; reflexivity].
Defined.

(** ** Caller styles *)

Section caller_styles.
Context `{StyleObject}.

Lemma applyStyles_assign options e :
  applyStyles options e
  = (fun s => withStyle s e) <$> Object_assign (style e) (callerPairs options).
Proof.
  unfold applyStyles, callerPairs. destruct (styles options) as [st|]; simpl.
  - by destruct (Object_assign (style e) st).
  - by destruct e.
Qed.

Lemma applyStyles_Some options e c :
  applyStyles options e = Some c ->
  nid c = nid e ∧ tagName c = tagName e ∧ attributes c = attributes e
  ∧ children c = children e
  ∧ Object_assign (style e) (callerPairs options) = Some (style c).
Proof.
  rewrite applyStyles_assign.
  destruct (Object_assign (style e) (callerPairs options)) as [s|]; [|done].
  by intros [= <-].
Qed.

Lemma applyStyles_no_styles options e :
  styles options = None -> applyStyles options e = Some e.
Proof. unfold applyStyles. by intros ->. Qed.

Lemma Object_assign_app s st1 st2 :
  Object_assign s (st1 ++ st2)
  = Object_assign s st1 ≫= fun s' => Object_assign s' st2.
Proof.
  revert s. induction st1 as [|[k w] r IH]; intros s; simpl; [done|].
  destruct (assignProperty k w s); simpl; [apply IH|done].
Qed.

Lemma accepted_cons k w st :
  accepted ((k, w) :: st)
  <-> (forall s, is_Some (assignProperty k w s)) ∧ accepted st.
Proof.
  unfold accepted. split.
  - intros Hall. split; [intros s; apply Hall; by left|].
    intros n u Hin. apply Hall. by right.
  - intros [Hk Hst] n u [[= -> ->]|Hin]%elem_of_cons; auto.
Qed.

Lemma Object_assign_accepted st :
  accepted st -> forall s, is_Some (Object_assign s st).
Proof.
  induction st as [|[k w] r IH]; intros Hall s; simpl; [by eexists|].
  apply accepted_cons in Hall as [Hk Hr].
  destruct (Hk s) as [s' ->]. by apply IH.
Qed.

Lemma Object_assign_leavesAlone st p :
  leavesAlone st p ->
  forall s s', Object_assign s st = Some s' -> s' !! p = s !! p.
Proof.
  induction st as [|[k w] r IH]; intros Hall s s'; simpl; [by intros [= ->]|].
  destruct (assignProperty k w s) as [s1|] eqn:Hs1; [|done]. intros Hrun.
  rewrite (IH (fun n u Hin => Hall n u (list_elem_of_further _ _ _ Hin)) _ _ Hrun).
  eapply Hall; [by left|done].
Qed.

Lemma applyStyles_accepted options e :
  accepted (callerPairs options) -> is_Some (applyStyles options e).
Proof.
  intros Hall. rewrite applyStyles_assign.
  by destruct (Object_assign_accepted _ Hall (style e)) as [s ->].
Qed.

Lemma applyStyles_leavesAlone options e c p :
  leavesAlone (callerPairs options) p ->
  applyStyles options e = Some c -> style c !! p = style e !! p.
Proof.
  intros Hp (_ & _ & _ & _ & Hrun)%applyStyles_Some.
  by eapply Object_assign_leavesAlone.
Qed.

(** C4, amended.  The caller's styles are assigned last, in their order.
    When the style object accepts every one of these assignments, keeps
    the value [v] under the property [p] it is assigned to, and the
    assignments that come after leave [p] alone, [cloneElement] returns a
    clone on which [p] has the caller's value [v], whatever normalisation
    and placement wrote to [p] before. *)
Theorem caller_styles_last (target : ElementTarget) (options : CloneOptions)
    (d : Document) (e : HTMLElement) (st before after : list (string * string))
    (p v : string) :
  resolve target d = Some e ->
  styles options = Some st ->
  st = before ++ (p, v) :: after ->
  accepted st ->
  storedAsWritten p v ->
  leavesAlone after p ->
  exists clone d',
    cloneElement target options d = Return clone d'
    ∧ style clone !! p = Some v.
Proof.
  intros He Hst -> Hacc Hstored Hafter.
  rewrite (cloneElement_resolved _ _ _ _ He).
  set (placed := applyPosition _ _).
  assert (Hpairs : callerPairs options = before ++ (p, v) :: after)
    by (unfold callerPairs; by rewrite Hst).
  destruct (applyStyles_accepted options placed) as [c Hc];
    [by rewrite Hpairs|].
  rewrite Hc. eexists _, _. split; [done|].
  apply applyStyles_Some in Hc as (_ & _ & _ & _ & Hrun).
  rewrite Hpairs, Object_assign_app in Hrun.
  destruct (Object_assign (style placed) before) as [s1|]; [|done].
  simpl in Hrun.
  destruct (assignProperty p v s1) as [s2|] eqn:Hs2; [|done].
  rewrite (Object_assign_leavesAlone _ _ Hafter _ _ Hrun).
  by eapply Hstored.
Qed.

End caller_styles.

Lemma example_assign_plain name value s :
  name ∉ ["length"; "parentRule"] ->
  name ∉ ["overflow"; "overflowX"; "overflowY"] ->
  assignProperty name value s = Some (<[name := value]> s).
Proof.
  intros Hr Ho. cbn [assignProperty exampleStyleObject].
  rewrite (decide_False _ _ Hr). by rewrite (decide_False _ _ Ho).
Qed.

Lemma example_assign_overflow value s :
  value ∈ overflowKeywords ->
  assignProperty "overflow" value s = Some (assignOverflow value s).
Proof.
  intros Hk. cbn [assignProperty exampleStyleObject].
  rewrite decide_False by by_computation.
  rewrite decide_True by by_computation.
  by rewrite (decide_True _ _ Hk), decide_True.
Qed.

Lemma caller_styles_last_witness :
  exists clone d',
    cloneElement (TargetId "card")
      (mkOptions (Some (Some "off-screen"))
                 (Some [("overflow", "hidden"); ("left", "0")])) page
    = Return clone d'
    ∧ style clone !! "overflow" = Some "hidden".
Proof.
  apply (caller_styles_last (TargetId "card") _ page card
           [("overflow", "hidden"); ("left", "0")] []
           [("left", "0")] "overflow" "hidden").
  - vm_compute. reflexivity.
  - reflexivity.
  - reflexivity.
  - intros name value Hin s.
    apply elem_of_cons in Hin as [[= -> ->]|Hin].
    { rewrite example_assign_overflow by by_computation. by eexists. }
    apply list_elem_of_singleton in Hin as [= -> ->].
    rewrite example_assign_plain by by_computation. by eexists.
  - intros s s'. rewrite example_assign_overflow by by_computation.
    intros [= <-]. unfold assignOverflow. by simplify_map_eq.
  - intros name value Hin%list_elem_of_singleton s s'.
    injection Hin as -> ->.
    rewrite example_assign_plain by by_computation.
    intros [= <-]. by simplify_map_eq.
Defined.

(** C4, as stated, fails.  The caller names [overflowY] and then
    [overflow]: the second assignment is a shorthand and rewrites the
    first, so the clone holds [hidden] for [overflowY], not the caller's
    [scroll].  And a caller property the style object refuses makes
    [cloneElement] throw instead of returning a clone. *)
Lemma caller_value_not_always_final :
  resolve (TargetId "card") page = Some card
  ∧ ("overflowY", "scroll") ∈ callerPairs longhandThenShorthand
  ∧ (exists clone d',
       cloneElement (H := exampleStyleObject) (TargetId "card")
         longhandThenShorthand page = Return clone d'
       ∧ style clone !! "overflowY" = Some "hidden")
  ∧ (exists d',
       cloneElement (H := exampleStyleObject) (TargetId "card")
         (mkOptions None (Some [("length", "3")])) page = Throw TypeError d').
Proof.
  split; [by vm_compute|]. split; [by left|]. split.
  - eexists _, _. split; [vm_compute; reflexivity|]. by vm_compute.
  - eexists. vm_compute. reflexivity.
Qed.

(** The example of the specification: [{styles: {overflow: 'hidden'}}]
    leaves the clone with [overflow: hidden], though normalisation wrote
    [visible] first. *)
Example caller_overflow_hidden :
  exists clone d',
    cloneElement (TargetId "card")
      (mkOptions None (Some [("overflow", "hidden")])) page
    = Return clone d'
    ∧ style clone !! "overflow" = Some "hidden"
    ∧ style clone !! "overflowY" = Some "hidden".
Proof. eexists _, _. split; [vm_compute; reflexivity|]. by vm_compute. Qed.

(** ** [checkScrollLimits] *)

(** C6.  For a target that resolves to [e], [checkScrollLimits] returns,
    without touching the document, the computed max-height, overflow and
    overflow-y of [e] itself, and three flags that hold exactly when the
    value reported next to them is not [none], respectively [visible]. *)
Theorem checkScrollLimits_consistent `{RenderingEngine}
    (target : ElementTarget) (d : Document) (e : HTMLElement) :
  resolve target d = Some e ->
  exists info,
    checkScrollLimits target d = Return info d
    ∧ maxHeight info = getProperty (getComputedStyle d e) "maxHeight"
    ∧ overflow info = getProperty (getComputedStyle d e) "overflow"
    ∧ overflowY info = getProperty (getComputedStyle d e) "overflowY"
    ∧ (hasMaxHeight info = true <-> maxHeight info ≠ "none")
    ∧ (hasOverflow info = true <-> overflow info ≠ "visible")
    ∧ (hasOverflowY info = true <-> overflowY info ≠ "visible").
Proof.
  intros He. unfold checkScrollLimits, bind, gets, ret. rewrite He.
  eexists. split; [reflexivity|]. simpl.
  repeat split; try apply bool_decide_eq_true_1; apply bool_decide_eq_true_2.
Qed.

Lemma checkScrollLimits_consistent_witness :
  exists info,
    checkScrollLimits (H := inlineEngine) (TargetId "card") page
      = Return info page
    ∧ maxHeight info
      = getProperty (getComputedStyle (RenderingEngine := inlineEngine) page card) "maxHeight"
    ∧ overflow info
      = getProperty (getComputedStyle (RenderingEngine := inlineEngine) page card) "overflow"
    ∧ overflowY info
      = getProperty (getComputedStyle (RenderingEngine := inlineEngine) page card) "overflowY"
    ∧ (hasMaxHeight info = true <-> maxHeight info ≠ "none")
    ∧ (hasOverflow info = true <-> overflow info ≠ "visible")
    ∧ (hasOverflowY info = true <-> overflowY info ≠ "visible").
Proof.
  apply (checkScrollLimits_consistent (H := inlineEngine)).
  vm_compute. reflexivity.
Defined.

(** An element with inline [overflow: hidden; max-height: 50px], under an
    engine that computes styles from the inline style. *)
Example checkScrollLimits_card :
  checkScrollLimits (H := inlineEngine) (TargetId "card") page
  = Return (mkScrollLimitInfo true true true "50px" "hidden" "hidden") page.
Proof. vm_compute. reflexivity. Qed.

(** ** Copies and the allocator *)

Lemma cloneNode_root e n :
  nid (cloneNode e n).1 = n
  ∧ tagName (cloneNode e n).1 = tagName e
  ∧ attributes (cloneNode e n).1 = attributes e
  ∧ style (cloneNode e n).1 = style e.
Proof.
  destruct e as [i t a s cs]. simpl.
  by match goal with |- context [let '(_, _) := ?x in _] => destruct x end.
Qed.

Lemma applyPosition_nid options e : nid (applyPosition options e) = nid e.
Proof. unfold applyPosition. by repeat case_decide. Qed.

(** What is known when [cloneElement] has returned. *)
Lemma cloneElement_returns `{StyleObject} target options d clone d' :
  cloneElement target options d = Return clone d' ->
  exists e,
    resolve target d = Some e
    ∧ applyStyles options (applyPosition options
        (removeScrollLimits (cloneNode e (nextId d)).1)) = Some clone
    ∧ d' = mkDocument (preceding d) (body d) (cloneNode e (nextId d)).2.
Proof.
  destruct (resolve target d) as [e|] eqn:He.
  - rewrite (cloneElement_resolved _ _ _ _ He).
    destruct (applyStyles _ _) as [c|] eqn:Hc; [|done].
    intros [= <- <-]. by exists e.
  - by rewrite (cloneElement_unresolved _ _ _ He).
Qed.

Lemma cloneElement_nid `{StyleObject} target options d clone d' :
  cloneElement target options d = Return clone d' -> nid clone = nextId d.
Proof.
  intros (e & _ & (Hn & _)%applyStyles_Some & _)%cloneElement_returns.
  rewrite Hn, applyPosition_nid, removeScrollLimits_nid.
  apply cloneNode_root.
Qed.

Lemma cloneElement_document `{StyleObject} target options d clone d' :
  cloneElement target options d = Return clone d' ->
  preceding d' = preceding d ∧ body d' = body d.
Proof. by intros (e & _ & _ & ->)%cloneElement_returns. Qed.

(** ** Attaching to and detaching from [document.body] *)

Lemma idsBelow_children n e :
  idsBelow n e -> Forall (idsBelow n) (children e).
Proof.
  destruct e as [i t a s cs]. unfold idsBelow. simpl.
  intros H. apply Forall_cons in H as [_ H].
  induction cs as [|c r IH]; simpl in *; [constructor|].
  apply Forall_app in H as [Hc Hr]. constructor; auto.
Qed.

Lemma idsBelow_nid n e : idsBelow n e -> (nid e < n)%positive.
Proof.
  destruct e as [i t a s cs]. unfold idsBelow. simpl.
  intros H. by apply Forall_cons in H as [H _].
Qed.

Lemma idsBelow_contains n e : idsBelow n e -> contains e n = false.
Proof.
  induction e as [i t a s cs IH] using HTMLElement_ind.
  intros H. pose proof (idsBelow_nid _ _ H) as Hi.
  apply idsBelow_children in H. simpl in *.
  rewrite bool_decide_eq_false_2 by lia. simpl.
  induction IH as [|c r Hc _ IHr]; simpl; [done|].
  apply Forall_cons in H as [H1 H2]. by rewrite Hc, IHr.
Qed.

Lemma contains_appendChild b c : contains (appendChild b c) (nid c) = true.
Proof.
  destruct b as [i t a s cs], c as [j u a' s' cs']. simpl.
  rewrite existsb_app. simpl. rewrite (bool_decide_eq_true_2 (j = j)) by done.
  simpl. by rewrite !orb_true_r.
Qed.

Lemma removeChild_appendChild b c :
  Forall (fun x => nid x ≠ nid c) (children b) ->
  removeChild (appendChild b c) (nid c) = Some b.
Proof.
  intros Hb. destruct b as [i t a s cs]. unfold removeChild. simpl in *.
  rewrite existsb_app. simpl.
  rewrite (bool_decide_eq_true_2 (nid c = nid c)) by done.
  rewrite orb_true_r. do 2 f_equal.
  rewrite filter_app, filter_cons_False, filter_nil, app_nil_r by tauto.
  induction Hb as [|x r Hx _ IH]; [done|].
  by rewrite filter_cons_True, IH.
Qed.

Lemma allocatorFresh_children d :
  allocatorFresh d ->
  Forall (fun x => nid x ≠ nextId d) (children (body d)).
Proof.
  intros [_ H]. apply idsBelow_children in H.
  eapply Forall_impl; [exact H|]. intros x Hx%idsBelow_nid. simpl in Hx. lia.
Qed.

(** What [cloneAndAddToDOM] does once its target is resolved: the clone
    is appended to the body, unless the caller's styles made
    [cloneElement] throw, in which case nothing is attached. *)
Lemma cloneAndAddToDOM_resolved `{StyleObject} target options d e :
  resolve target d = Some e ->
  cloneAndAddToDOM target options d
  = match applyStyles options (applyPosition (withOffScreenDefault options)
            (removeScrollLimits (cloneNode e (nextId d)).1)) with
    | Some c =>
        Return (mkClonedElementData (nextId d))
          (mkDocument (preceding d) (appendChild (body d) c)
                      (cloneNode e (nextId d)).2)
    | None =>
        Throw TypeError
          (mkDocument (preceding d) (body d) (cloneNode e (nextId d)).2)
    end.
Proof.
  intros He. unfold cloneAndAddToDOM, bind.
  rewrite (cloneElement_resolved _ _ _ _ He).
  change (applyStyles (withOffScreenDefault options))
    with (applyStyles options).
  destruct (applyStyles options _) as [c|] eqn:Hc; [|done].
  unfold body_appendChild, modify, ret, setBody. simpl.
  apply applyStyles_Some in Hc as (-> & _).
  rewrite applyPosition_nid, removeScrollLimits_nid.
  by rewrite (proj1 (cloneNode_root e (nextId d))).
Qed.

(** What is known when [cloneAndAddToDOM] has returned. *)
Lemma cloneAndAddToDOM_attached `{StyleObject} target options d data d1 :
  cloneAndAddToDOM target options d = Return data d1 ->
  exists e c,
    resolve target d = Some e
    ∧ applyStyles options (applyPosition (withOffScreenDefault options)
        (removeScrollLimits (cloneNode e (nextId d)).1)) = Some c
    ∧ nid c = nextId d
    ∧ data = mkClonedElementData (nextId d)
    ∧ d1 = mkDocument (preceding d) (appendChild (body d) c)
                      (cloneNode e (nextId d)).2.
Proof.
  intros Hrun. destruct (resolve target d) as [e|] eqn:He.
  - rewrite (cloneAndAddToDOM_resolved _ _ _ _ He) in Hrun.
    destruct (applyStyles options _) as [c|] eqn:Hc; [|done].
    injection Hrun as <- <-. exists e, c. repeat split; try done.
    apply applyStyles_Some in Hc as (-> & _).
    rewrite applyPosition_nid, removeScrollLimits_nid.
    apply cloneNode_root.
  - unfold cloneAndAddToDOM, bind in Hrun.
    by rewrite (cloneElement_unresolved _ _ _ He) in Hrun.
Qed.

(** ** [getFullDimensions] *)




(** ** Placement *)



Lemma applyPosition_visible options e :
  get_position options = Some "visible" ->
  forall p,
    style (applyPosition options e) !! p
    = (visibleStyles ∪ style e) !! p.
Proof.
  intros Hp p. unfold applyPosition, visibleStyles. rewrite Hp.
  rewrite decide_False, decide_True by done. simpl.
  rewrite <- insert_union_l, <- insert_union_singleton_l.
  by rewrite (insert_insert_ne _ "position" "display").
Qed.

Lemma applyPosition_undefined options e :
  get_position options = None -> applyPosition options e = e.
Proof. intros Hp. unfold applyPosition. by rewrite Hp. Qed.


Lemma withOffScreenDefault_present options v :
  position options = Some v -> withOffScreenDefault options = options.
Proof. destruct options as [pos st]. simpl. by intros ->. Qed.

Lemma placement_not_scroll p :
  p ∈ placementProperties ->
  "maxHeight" ≠ p ∧ "overflowY" ≠ p ∧ "overflow" ≠ p ∧ "overflowX" ≠ p.
Proof.
  unfold placementProperties. rewrite !elem_of_cons, elem_of_nil.
  intuition (subst; discriminate).
Qed.




(** C10.  When the options hold a [position] key whose value is
    [undefined], [cloneAndAddToDOM] applies no placement: the clone goes
    from normalisation straight to the caller's styles and is appended to
    the body as they leave it (or [TypeError] is thrown, and nothing
    attached, when one of those assignments throws).  On the clone, each
    placement property that the assignments of the caller's styles leave
    alone reads as on the original element. *)
Theorem undefined_position_cancels_default `{StyleObject}
    (target : ElementTarget) (options : CloneOptions) (d : Document)
    (e : HTMLElement) :
  resolve target d = Some e ->
  position options = Some None ->
  cloneAndAddToDOM target options d
  = match applyStyles options
            (removeScrollLimits (cloneNode e (nextId d)).1) with
    | Some c =>
        Return (mkClonedElementData (nid c))
          (mkDocument (preceding d) (appendChild (body d) c)
                      (cloneNode e (nextId d)).2)
    | None =>
        Throw TypeError
          (mkDocument (preceding d) (body d) (cloneNode e (nextId d)).2)
    end
  ∧ forall c,
      applyStyles options (removeScrollLimits (cloneNode e (nextId d)).1)
      = Some c ->
      forall p, p ∈ placementProperties ->
                leavesAlone (callerPairs options) p ->
                style c !! p = style e !! p.
Proof.
  intros He Hpos. split.
  - rewrite (cloneAndAddToDOM_resolved target options d e He).
    rewrite (withOffScreenDefault_present _ _ Hpos).
    rewrite applyPosition_undefined
      by (unfold get_position; by rewrite Hpos).
    destruct (applyStyles options _) as [c|] eqn:Hc; [|done].
    do 2 f_equal. apply applyStyles_Some in Hc as (-> & _).
    by rewrite removeScrollLimits_nid, (proj1 (cloneNode_root _ _)).
  - intros c Hc p Hp Halone.
    rewrite (applyStyles_leavesAlone _ _ _ _ Halone Hc).
    rewrite removeScrollLimits_style.
    apply placement_not_scroll in Hp as (? & ? & ? & ?).
    rewrite !lookup_insert_ne by done.
    by rewrite (proj2 (proj2 (proj2 (cloneNode_root _ _)))).
Qed.

Lemma undefined_position_cancels_default_witness :
  cloneAndAddToDOM (TargetId "card")
    (mkOptions (Some None) (Some [("color", "blue")])) page
  = match applyStyles (mkOptions (Some None) (Some [("color", "blue")]))
            (removeScrollLimits (cloneNode card (nextId page)).1) with
    | Some c =>
        Return (mkClonedElementData (nid c))
          (mkDocument (preceding page) (appendChild (body page) c)
                      (cloneNode card (nextId page)).2)
    | None =>
        Throw TypeError
          (mkDocument (preceding page) (body page)
                      (cloneNode card (nextId page)).2)
    end
  ∧ forall c,
      applyStyles (mkOptions (Some None) (Some [("color", "blue")]))
        (removeScrollLimits (cloneNode card (nextId page)).1)
      = Some c ->
      forall p, p ∈ placementProperties ->
                leavesAlone
                  (callerPairs
                     (mkOptions (Some None) (Some [("color", "blue")]))) p ->
                style c !! p = style card !! p.
Proof.
  apply (undefined_position_cancels_default _ _ _ card);
    [vm_compute; reflexivity | reflexivity].
Defined.

(** With [{position: undefined}] and nothing else, the clone attached to
    the body of the example page has none of the placement properties. *)
Example undefined_position_on_card :
  exists c d',
    cloneAndAddToDOM (TargetId "card") (mkOptions (Some None) None) page
    = Return (mkClonedElementData (nid c)) d'
    ∧ children (body d') = children (body page) ++ [c]
    ∧ Forall (fun p => style c !! p = None) placementProperties.
Proof.
  exists (removeScrollLimits (cloneNode card (nextId page)).1). eexists.
  split; [vm_compute; reflexivity|]. split; [reflexivity|].
  unfold placementProperties. repeat constructor.
Qed.

(** ** The closure [remove] *)

Lemma remove_absent data d :
  contains (body d) (element data) = false -> remove data d = Return tt d.
Proof. intros Hc. unfold remove, bind, body_contains, gets. by rewrite Hc. Qed.

(** X8.  [remove] throws in one situation only: the clone is below
    [document.body] but is not one of its children.  What it throws then
    is [NotFoundError], and the document is left as it was. *)
Lemma remove_throws data d ex d' :
  remove data d = Throw ex d' ->
  ex = DOMException "NotFoundError" ∧ d' = d
  ∧ contains (body d) (element data) = true
  ∧ Forall (fun c => nid c ≠ element data) (children (body d)).
Proof.
  unfold remove, bind, body_contains, gets, body_removeChild, removeChild, ret.
  destruct (contains (body d) (element data)) eqn:Hc; [|done].
  destruct (existsb _ (children (body d))) eqn:Hx; [done|].
  intros [= <- <-]. repeat split.
  apply Forall_forall. intros c Hin Heq.
  apply not_true_iff_false in Hx. apply Hx, existsb_exists.
  exists c. split; [by apply list_elem_of_In|by apply bool_decide_eq_true_2].
Qed.

(** X6.  Released right after [cloneAndAddToDOM], the clone leaves the body
    as it was before the clone was attached, and a second [remove] changes
    nothing. *)
Lemma remove_after_cloneAndAddToDOM `{StyleObject} target options d data d1 :
  allocatorFresh d ->
  cloneAndAddToDOM target options d = Return data d1 ->
  exists d2,
    remove data d1 = Return tt d2
    ∧ body d2 = body d
    ∧ contains (body d2) (element data) = false
    ∧ remove data d2 = Return tt d2.
Proof.
  intros Hd Hrun.
  apply cloneAndAddToDOM_attached in Hrun as (e & c & _ & _ & Hc & -> & ->).
  assert (Hgone : contains (body d) (nextId d) = false)
    by apply idsBelow_contains, Hd.
  eexists (mkDocument (preceding d) (body d) _).
  split; [|split; [done|split; [done|by apply remove_absent]]].
  unfold remove, bind, body_contains, gets, body_removeChild, setBody.
  cbn [body preceding nextId element]. rewrite <- Hc.
  rewrite contains_appendChild. cbn [body preceding nextId].
  rewrite removeChild_appendChild; [done|].
  rewrite Hc. by apply allocatorFresh_children.
Qed.

(** C3 fails on the code.  A script clones the card, moves the clone it
    was handed into another element of the body, and calls [remove]: the
    clone is still contained in [document.body], yet [remove] throws
    [NotFoundError] and the clone stays in the document. *)
Theorem remove_throws_after_reparenting `{StyleObject} :
  exists data d1 d2,
    cloneAndAddToDOM (TargetId "card") noOptions page = Return data d1
    ∧ node_appendChild (nid wrap) (element data) d1 = Return tt d2
    ∧ contains (body d2) (element data) = true
    ∧ remove data d2 = Throw (DOMException "NotFoundError") d2
    ∧ moveThenRemove page = Throw (DOMException "NotFoundError") d2.
Proof.
  eexists _, _, _.
  split; [vm_compute; reflexivity|].
  split; [vm_compute; reflexivity|].
  split; [vm_compute; reflexivity|].
  split; vm_compute; reflexivity.
Qed.

(** ** The allocator invariant is kept *)

Lemma idsBelow_ids n e :
  idsBelow n e <-> Forall (fun i => (i < n)%positive) (map nid (subtree e)).
Proof. unfold idsBelow. by rewrite Forall_map. Qed.

Lemma idsBelow_weaken n m e :
  (n ≤ m)%positive -> idsBelow n e -> idsBelow m e.
Proof.
  intros Hnm He. unfold idsBelow in *. eapply Forall_impl; [exact He|].
  intros x Hx. simpl in *. lia.
Qed.

Lemma idsBelow_node n e :
  (nid e < n)%positive -> Forall (idsBelow n) (children e) -> idsBelow n e.
Proof.
  destruct e as [i t a s cs]. unfold idsBelow. simpl. intros Hi Hcs.
  constructor; [done|].
  induction Hcs as [|c r Hc _ IH]; simpl; [constructor|by apply Forall_app].
Qed.

(** The copy of a subtree has exactly the identities handed out for it. *)
Lemma cloneNode_ids e :
  forall n,
    (n < (cloneNode e n).2)%positive
    ∧ Forall (fun x => (n ≤ nid x < (cloneNode e n).2)%positive)
             (subtree (cloneNode e n).1).
Proof.
  induction e as [i t a s cs IH] using HTMLElement_ind. intros n. simpl.
  match goal with |- context [?f cs (Pos.succ n)] =>
    assert (Hcs : forall m,
      (m ≤ (f cs m).2)%positive
      ∧ Forall (fun x => (m ≤ nid x < (f cs m).2)%positive)
               (flat_map subtree (f cs m).1));
    [|specialize (Hcs (Pos.succ n)); destruct (f cs (Pos.succ n)) as [cs' n']]
  end.
  - induction IH as [|c r Hc _ IHr]; intros m; simpl.
    + split; [lia|constructor].
    + destruct (Hc m) as [Hlt Hall]. destruct (cloneNode c m) as [c' n1].
      match goal with |- context [?f r n1] =>
        destruct (IHr n1) as [Hle Hrest]; destruct (f r n1) as [r' n2]
      end.
      simpl in *. split; [lia|]. apply Forall_app. split.
      * eapply Forall_impl; [exact Hall|]. simpl. intros x ?. lia.
      * eapply Forall_impl; [exact Hrest|]. simpl. intros x ?. lia.
  - simpl in *. destruct Hcs as [Hle Hall]. split; [lia|].
    constructor; [simpl; lia|].
    eapply Forall_impl; [exact Hall|]. simpl. intros x ?. lia.
Qed.

Lemma subtree_ids_setStyle p v e :
  map nid (subtree (setStyle p v e)) = map nid (subtree e).
Proof. by destruct e. Qed.

Lemma subtree_ids_applyPosition options e :
  map nid (subtree (applyPosition options e)) = map nid (subtree e).
Proof.
  unfold applyPosition. repeat case_decide;
    by rewrite ?subtree_ids_setStyle.
Qed.

Lemma subtree_ids_applyStyles `{StyleObject} options e c :
  applyStyles options e = Some c ->
  map nid (subtree c) = map nid (subtree e).
Proof.
  rewrite applyStyles_assign.
  destruct (Object_assign _ _) as [s|]; [|done]. intros [= <-]. by destruct e.
Qed.

(** The identities of a clone are those its copy was given. *)
Lemma subtree_ids_clone `{StyleObject} options options' e n c :
  applyStyles options
    (applyPosition options' (removeScrollLimits (cloneNode e n).1)) = Some c ->
  map nid (subtree c) = map nid (subtree (cloneNode e n).1).
Proof.
  intros ->%subtree_ids_applyStyles.
  by rewrite subtree_ids_applyPosition, subtree_ids_removeScrollLimits.
Qed.

Lemma allocatorFresh_cloneAndAddToDOM `{StyleObject} target options d data d' :
  allocatorFresh d ->
  cloneAndAddToDOM target options d = Return data d' ->
  allocatorFresh d'.
Proof.
  intros [Hp Hb] Hrun.
  apply cloneAndAddToDOM_attached in Hrun as (e & c & _ & Hc & _ & -> & ->).
  destruct (cloneNode_ids e (nextId d)) as [Hlt Hall].
  split; cbn [preceding body nextId].
  - eapply Forall_impl; [exact Hp|]. intros x. apply idsBelow_weaken. lia.
  - apply idsBelow_node.
    + destruct (body d). simpl. apply idsBelow_nid in Hb. simpl in Hb. lia.
    + replace (children (appendChild (body d) c))
        with (children (body d) ++ [c]) by (by destruct (body d)).
      apply Forall_app. split.
      * apply idsBelow_children in Hb.
        eapply Forall_impl; [exact Hb|]. intros x. apply idsBelow_weaken. lia.
      * constructor; [|constructor]. apply idsBelow_ids.
        rewrite (subtree_ids_clone _ _ _ _ _ Hc).
        apply Forall_map. eapply Forall_impl; [exact Hall|].
        simpl. intros x ?. lia.
Qed.

Lemma allocatorFresh_remove data d d' :
  allocatorFresh d -> remove data d = Return tt d' -> allocatorFresh d'.
Proof.
  intros [Hp Hb].
  unfold remove, bind, body_contains, gets, body_removeChild, removeChild, ret.
  destruct (contains (body d) (element data)); [|by intros [= <-]].
  destruct (existsb _ (children (body d))); [|done].
  intros [= <-]. split; [done|]. cbn [body nextId setBody].
  apply idsBelow_node; [by apply idsBelow_nid in Hb|]. cbn [children].
  apply idsBelow_children in Hb. revert Hb. generalize (children (body d)).
  intros l Hl. induction Hl as [|x r Hx _ IH]; [constructor|].
  rewrite filter_cons. case_decide; [by constructor|done].
Qed.

(** * Further properties of the code *)

(** ** What [cloneElement] returns *)











(** ** The nodes of a clone are new *)

Lemma Forall_ids_elem (P : NodeId -> Prop) (l : list HTMLElement) k :
  Forall (fun x => P (nid x)) l -> k ∈ map nid l -> P k.
Proof.
  induction 1 as [|x r Hx _ IH]; simpl.
  - by intros ?%elem_of_nil.
  - intros [->|?]%elem_of_cons; auto.
Qed.

Lemma contains_ids e k : contains e k = true <-> k ∈ map nid (subtree e).
Proof.
  induction e as [i t a s cs IH] using HTMLElement_ind. simpl.
  rewrite orb_true_iff, bool_decide_eq_true, elem_of_cons.
  assert (Hcs : existsb (fun c => contains c k) cs = true
                <-> k ∈ map nid (flat_map subtree cs)).
  { induction IH as [|c r Hc _ IHr]; simpl.
    - split; [done|by intros ?%elem_of_nil].
    - by rewrite orb_true_iff, map_app, elem_of_app, Hc, IHr. }
  rewrite Hcs. split; intros [?|?]; auto.
Qed.

Lemma contains_false_ids e k :
  contains e k = false <-> k ∉ map nid (subtree e).
Proof. rewrite <- contains_ids. by destruct (contains e k). Qed.

Lemma cloneNode_unique e : forall n, uniqueIds (cloneNode e n).1.
Proof.
  unfold uniqueIds.
  induction e as [i t a s cs IH] using HTMLElement_ind. intros n. simpl.
  match goal with |- context [?f cs (Pos.succ n)] =>
    assert (Hcs : forall m,
      (m ≤ (f cs m).2)%positive
      ∧ Forall (fun x => (m ≤ nid x < (f cs m).2)%positive)
               (flat_map subtree (f cs m).1)
      ∧ NoDup (map nid (flat_map subtree (f cs m).1)));
    [|specialize (Hcs (Pos.succ n)); destruct (f cs (Pos.succ n)) as [cs' n']]
  end.
  - induction IH as [|c r Hc _ IHr]; intros m; simpl.
    + split; [lia|]. split; constructor.
    + specialize (Hc m). destruct (cloneNode_ids c m) as [Hlt Hall].
      destruct (cloneNode c m) as [c' n1].
      match goal with |- context [?f r n1] =>
        destruct (IHr n1) as (Hle & Hrest & Hnd); destruct (f r n1) as [r' n2]
      end.
      simpl in *. split; [lia|]. split.
      * apply Forall_app. split.
        -- eapply Forall_impl; [exact Hall|]. simpl. intros x ?. lia.
        -- eapply Forall_impl; [exact Hrest|]. simpl. intros x ?. lia.
      * rewrite map_app. apply NoDup_app. split; [done|]. split; [|done].
        intros k Hk1 Hk2.
        apply (Forall_ids_elem (fun j => (m ≤ j < n1)%positive)) in Hk1;
          [|done].
        apply (Forall_ids_elem (fun j => (n1 ≤ j < n2)%positive)) in Hk2;
          [|done].
        lia.
  - simpl in *. destruct Hcs as (Hle & Hall & Hnd).
    apply NoDup_cons. split; [|done]. intros Hk.
    apply (Forall_ids_elem (fun j => (Pos.succ n ≤ j < n')%positive)) in Hk;
      [|done].
    lia.
Qed.

Lemma idsBelow_not_contains n k e :
  idsBelow n e -> (n ≤ k)%positive -> contains e k = false.
Proof.
  intros He Hnk. apply idsBelow_contains.
  unfold idsBelow in *. eapply Forall_impl; [exact He|].
  simpl. intros x ?. lia.
Qed.

(** X3.  A successful [cloneElement] leaves the tree of the document
    untouched and returns a detached subtree made of new nodes only: its
    nodes are pairwise distinct and none of them is a node of the
    document. *)
Theorem cloneElement_detached `{StyleObject} (target : ElementTarget)
    (options : CloneOptions) (d d' : Document) (clone : HTMLElement) :
  allocatorFresh d ->
  cloneElement target options d = Return clone d' ->
  preceding d' = preceding d
  ∧ body d' = body d
  ∧ uniqueIds clone
  ∧ Forall (fun x =>
              contains (body d') (nid x) = false
              ∧ Forall (fun r => contains r (nid x) = false) (preceding d'))
           (subtree clone).
Proof.
  intros [Hp Hb] (e & He & Hc & ->)%cloneElement_returns.
  cbn [preceding body]. do 2 (split; [done|]).
  pose proof (subtree_ids_clone _ _ _ _ _ Hc) as Hids.
  split.
  - unfold uniqueIds. rewrite Hids. apply cloneNode_unique.
  - destruct (cloneNode_ids e (nextId d)) as [_ Hall].
    apply Forall_forall. intros x Hx.
    assert (Hge : (nextId d ≤ nid x)%positive).
    { apply (Forall_ids_elem (fun j => (nextId d ≤ j)%positive)
               (subtree (cloneNode e (nextId d)).1)).
      - eapply Forall_impl; [exact Hall|]. simpl. intros y ?. lia.
      - rewrite <- Hids. apply list_elem_of_In, in_map.
        by apply list_elem_of_In. }
    split; [by eapply idsBelow_not_contains|].
    eapply Forall_impl; [exact Hp|]. intros r Hr.
    by eapply idsBelow_not_contains.
Qed.

Lemma cloneElement_detached_witness :
  preceding pageAfterCopy = preceding page
  ∧ body pageAfterCopy = body page
  ∧ uniqueIds (removeScrollLimits (cloneNode card 6).1)
  ∧ Forall (fun x =>
              contains (body pageAfterCopy) (nid x) = false
              ∧ Forall (fun r => contains r (nid x) = false)
                       (preceding pageAfterCopy))
           (subtree (removeScrollLimits (cloneNode card 6).1)).
Proof.
  apply (cloneElement_detached (TargetId "card") noOptions page).
  - split; repeat constructor.
  - vm_compute. reflexivity.
Defined.

(** ** The empty identifier *)

Lemma findById_unfold id e :
  findById id e
  = if decide (elementId e = Some id) then Some e
    else hd_error (omap (findById id) (children e)).
Proof.
  destruct e as [i t a s cs]. simpl. case_decide as Hid; [done|]. clear Hid.
  induction cs as [|c r IH]; simpl; [done|].
  by destruct (findById id c).
Qed.

Lemma findById_empty e : findById "" e = None.
Proof.
  induction e as [i t a s cs IH] using HTMLElement_ind.
  rewrite findById_unfold. simpl.
  rewrite decide_False.
  - induction IH as [|c r Hc _ IHr]; simpl; [done|]. by rewrite Hc.
  - unfold elementId. simpl. destruct (a !! "id") as [v|]; [|done].
    case_decide; [done|congruence].
Qed.

Lemma getElementById_empty d : getElementById d "" = None.
Proof.
  unfold getElementById. generalize (preceding d ++ [body d]).
  intros l. induction l as [|e r IH]; simpl; [done|].
  by rewrite findById_empty.
Qed.

(** X4.  The empty string names no element: given [""] as target, each of
    the four operations throws "Element not found" on every document and
    leaves it as it was, even when an element carries an empty [id]
    attribute. *)
Theorem empty_id_throws `{RenderingEngine} `{StyleObject}
    (options : CloneOptions) (d : Document) :
  cloneElement (TargetId "") options d = Throw (Error "Element not found") d
  ∧ cloneAndAddToDOM (TargetId "") options d
    = Throw (Error "Element not found") d
  ∧ getFullDimensions (TargetId "") d = Throw (Error "Element not found") d
  ∧ checkScrollLimits (TargetId "") d = Throw (Error "Element not found") d.
Proof.
  assert (Hr : resolve (TargetId "") d = None) by apply getElementById_empty.
  repeat split.
  - by apply cloneElement_unresolved.
  - unfold cloneAndAddToDOM, bind. by rewrite cloneElement_unresolved.
  - unfold getFullDimensions, bind. by rewrite cloneElement_unresolved.
  - unfold checkScrollLimits, bind, gets. by rewrite Hr.
Qed.

(** ** [getFullDimensions] as a composition *)

(** X5.  [getFullDimensions(target)] is [cloneAndAddToDOM(target)]
    followed by [getDimensions()] and [remove()] of the record it
    returned: on every document the two return the same dimensions, or
    throw the same error, and leave the same document. *)
Theorem getFullDimensions_is_clone_measure_remove
    `{RenderingEngine} `{StyleObject}
    (target : ElementTarget) (d : Document) :
  getFullDimensions target d
  = (let! data := cloneAndAddToDOM target noOptions in
     let! dimensions := getDimensions data in
     let! _ := remove data in
     ret dimensions) d.
Proof.
  destruct (resolve target d) as [e|] eqn:He.
  - unfold bind at 1 2. rewrite (cloneAndAddToDOM_resolved _ _ _ _ He).
    unfold getFullDimensions, bind.
    rewrite (cloneElement_resolved _ _ _ _ He).
    rewrite !applyStyles_no_styles by done.
    unfold noOptions, withOffScreenDefault, getDimensions,
      remove, bind, body_appendChild, body_contains, modify,
      readDimensions, gets, setBody.
    cbn [styles position element body preceding nextId].
    set (c := applyPosition _ _).
    assert (Hc : nextId d = nid c).
    { unfold c. rewrite applyPosition_nid, removeScrollLimits_nid.
      symmetry. apply cloneNode_root. }
    rewrite Hc, contains_appendChild. reflexivity.
  - unfold getFullDimensions, cloneAndAddToDOM, bind.
    by rewrite !(cloneElement_unresolved _ _ _ He).
Qed.

(** ** More on the closure [remove] *)

Lemma remove_after_cloneAndAddToDOM_witness :
  exists d2,
    remove (mkClonedElementData 6) pageAttached = Return tt d2
    ∧ body d2 = body page
    ∧ contains (body d2) (element (mkClonedElementData 6)) = false
    ∧ remove (mkClonedElementData 6) d2 = Return tt d2.
Proof.
  apply (remove_after_cloneAndAddToDOM (TargetId "card") noOptions page).
  - split; repeat constructor.
  - vm_compute. reflexivity.
Defined.

Lemma remove_throws_witness :
  DOMException "NotFoundError" = DOMException "NotFoundError"
  ∧ pageMoved = pageMoved
  ∧ contains (body pageMoved) (element (mkClonedElementData 6)) = true
  ∧ Forall (fun c => nid c ≠ element (mkClonedElementData 6))
           (children (body pageMoved)).
Proof.
  apply (remove_throws (mkClonedElementData 6) pageMoved).
  vm_compute. reflexivity.
Defined.

Lemma elem_of_subtree_ids (l : list HTMLElement) y :
  y ∈ l -> nid y ∈ map nid (flat_map subtree l).
Proof.
  induction 1 as [y r|y z r _ IH]; simpl; rewrite map_app, elem_of_app.
  - left. destruct y. simpl. apply elem_of_cons. by left.
  - by right.
Qed.

Lemma filter_subtree_ids (P : HTMLElement -> Prop) `{!forall x, Decision (P x)}
    (l : list HTMLElement) k :
  k ∈ map nid (flat_map subtree (filter P l)) ->
  k ∈ map nid (flat_map subtree l).
Proof.
  induction l as [|z r IH]; [done|]. rewrite filter_cons. simpl.
  rewrite map_app, elem_of_app. case_decide; simpl.
  - rewrite map_app, elem_of_app. intros [?|?]; auto.
  - auto.
Qed.

Lemma filter_child_ids (cs : list HTMLElement) c :
  NoDup (map nid (flat_map subtree cs)) ->
  (exists y, y ∈ cs ∧ nid y = c) ->
  c ∉ map nid (flat_map subtree (filter (fun x => nid x ≠ c) cs)).
Proof.
  induction cs as [|z r IH]; intros Hnd (y & Hy & Hc).
  - by apply elem_of_nil in Hy.
  - simpl in Hnd. rewrite map_app in Hnd.
    apply NoDup_app in Hnd as (Hz & Hdis & Hr).
    rewrite filter_cons. case_decide as Hzc.
    + apply elem_of_cons in Hy as [->|Hy]; [done|].
      simpl. rewrite map_app, elem_of_app. intros [Hin|Hin].
      * apply (Hdis c Hin). rewrite <- Hc. by apply elem_of_subtree_ids.
      * revert Hin. apply IH; eauto.
    + assert (nid z = c) as Hzc' by (by destruct (decide (nid z = c))).
      clear Hzc. rename Hzc' into Hzc. intros Hin%filter_subtree_ids.
      apply (Hdis c); [|done].
      rewrite <- Hzc. destruct z. simpl. apply elem_of_cons. by left.
Qed.

(** X7.  On a document whose nodes are distinct, [remove] is idempotent
    wherever it returns: after it returned, the clone is not below
    [document.body], and calling it again returns and changes nothing.
    This covers the clone that was already taken out by someone else. *)
Theorem remove_idempotent (data : ClonedElementData) (d d1 : Document) :
  uniqueIds (body d) ->
  remove data d = Return tt d1 ->
  contains (body d1) (element data) = false
  ∧ remove data d1 = Return tt d1.
Proof.
  intros Hu Hrun.
  assert (Hgone : contains (body d1) (element data) = false);
    [|split; [done|by apply remove_absent]].
  revert Hrun.
  unfold remove, bind, body_contains, gets, body_removeChild, removeChild, ret.
  destruct (contains (body d) (element data)) eqn:Hc; [|by intros [= <-]].
  destruct (existsb _ (children (body d))) eqn:Hx; [|done].
  intros [= <-]. cbn [body setBody].
  apply existsb_exists in Hx as (y & Hy%list_elem_of_In & Hyc%bool_decide_eq_true).
  unfold uniqueIds in Hu. destruct (body d) as [i t a s cs]. simpl in *.
  apply NoDup_cons in Hu as [Hi Hcs].
  rewrite orb_false_iff, bool_decide_eq_false. split.
  - intros ->. apply Hi. rewrite <- Hyc. by apply elem_of_subtree_ids.
  - apply not_true_iff_false. intros (z & Hz & Hzc)%existsb_exists.
    apply contains_ids in Hzc.
    apply (filter_child_ids cs (element data)); [done|by eauto|].
    apply list_elem_of_In in Hz. clear -Hz Hzc.
    induction Hz as [z r|z w r _ IH]; simpl; rewrite map_app, elem_of_app; auto.
Qed.

Lemma remove_idempotent_witness :
  contains (body pageAfterCopy) (element (mkClonedElementData 6)) = false
  ∧ remove (mkClonedElementData 6) pageAfterCopy = Return tt pageAfterCopy.
Proof.
  apply (remove_idempotent (mkClonedElementData 6) pageAttached).
  - unfold uniqueIds. apply (bool_decide_unpack _). vm_compute. exact I.
  - vm_compute. reflexivity.
Defined.

(** ** Several clones *)

Lemma cloneAndAddToDOM_returns `{StyleObject} target options d data d1 :
  cloneAndAddToDOM target options d = Return data d1 ->
  exists e c,
    resolve target d = Some e
    ∧ nid c = nextId d
    ∧ Forall (fun x => (nextId d ≤ nid x)%positive) (subtree c)
    ∧ data = mkClonedElementData (nextId d)
    ∧ d1 = mkDocument (preceding d) (appendChild (body d) c)
                      (cloneNode e (nextId d)).2.
Proof.
  intros (e & c & He & Hc & Hn & -> & ->)%cloneAndAddToDOM_attached.
  exists e, c. split; [done|]. split; [done|]. split; [|done].
  apply Forall_forall. intros x Hx.
  apply (Forall_ids_elem (fun j => (nextId d ≤ j)%positive)
           (subtree (cloneNode e (nextId d)).1)).
  - destruct (cloneNode_ids e (nextId d)) as [_ Hall].
    eapply Forall_impl; [exact Hall|]. simpl. intros y ?. lia.
  - rewrite <- (subtree_ids_clone _ _ _ _ _ Hc).
    apply list_elem_of_In, in_map. by apply list_elem_of_In.
Qed.

Lemma contains_appendChild_other b c k :
  contains (appendChild b c) k = contains b k || contains c k.
Proof.
  destruct b as [i t a s cs]. simpl. rewrite existsb_app. simpl.
  by rewrite orb_false_r, orb_assoc.
Qed.

Lemma removeChild_appendChild_first b c1 c2 :
  Forall (fun x => nid x ≠ nid c1) (children b) ->
  nid c2 ≠ nid c1 ->
  removeChild (appendChild (appendChild b c1) c2) (nid c1)
  = Some (appendChild b c2).
Proof.
  intros Hb Hne.
  assert (Hf : filter (fun c => nid c ≠ nid c1) (children b) = children b).
  { induction Hb as [|x r Hx _ IH]; [done|]. by rewrite filter_cons_True, IH. }
  destruct b as [i t a s cs]. unfold removeChild. simpl in *.
  rewrite !existsb_app. simpl.
  rewrite (bool_decide_eq_true_2 (nid c1 = nid c1)) by done.
  rewrite !orb_true_r. simpl. do 2 f_equal.
  rewrite !filter_app, (filter_cons_False _ c1), (filter_cons_True _ c2),
    !filter_nil, app_nil_r by tauto.
  by rewrite Hf.
Qed.

(** X9.  Two clones attached one after the other are distinct nodes, and
    releasing the first leaves the second in place: the body then is what
    it was at the start with the second clone as its last child. *)
Theorem clones_are_independent `{StyleObject}
    (target1 target2 : ElementTarget) (options1 options2 : CloneOptions)
    (d d1 d2 : Document) (data1 data2 : ClonedElementData) :
  allocatorFresh d ->
  cloneAndAddToDOM target1 options1 d = Return data1 d1 ->
  cloneAndAddToDOM target2 options2 d1 = Return data2 d2 ->
  element data1 ≠ element data2
  ∧ exists clone2 d3,
      remove data1 d2 = Return tt d3
      ∧ nid clone2 = element data2
      ∧ body d3 = appendChild (body d) clone2
      ∧ contains (body d3) (element data2) = true
      ∧ contains (body d3) (element data1) = false.
Proof.
  intros Hd Hrun1 Hrun2.
  apply cloneAndAddToDOM_returns in Hrun1 as (e1 & c1 & _ & Hc1 & _ & -> & ->).
  apply cloneAndAddToDOM_returns in Hrun2 as (e2 & c2 & _ & Hc2 & Hge & -> & ->).
  cbn [nextId body preceding element] in *.
  destruct (cloneNode_ids e1 (nextId d)) as [Hlt _].
  assert (Hcs : Forall (fun x => nid x ≠ nextId d) (children (body d)))
    by (by apply allocatorFresh_children).
  assert (Hgone : contains (body d) (nextId d) = false)
    by apply idsBelow_contains, Hd.
  assert (Hgone2 : contains c2 (nextId d) = false).
  { apply contains_false_ids. intros Hin.
    apply (Forall_ids_elem
             (fun j => ((cloneNode e1 (nextId d)).2 ≤ j)%positive)) in Hin;
      [lia|done]. }
  split; [lia|]. exists c2.
  exists (mkDocument (preceding d) (appendChild (body d) c2)
            (cloneNode e2 (cloneNode e1 (nextId d)).2).2).
  cbn [body].
  split; [|split; [done|split; [done|split]]].
  - unfold remove, bind, body_contains, gets, body_removeChild, setBody.
    cbn [body preceding nextId element].
    rewrite contains_appendChild_other, <- Hc1, contains_appendChild.
    cbn [orb body preceding nextId].
    rewrite removeChild_appendChild_first; [by rewrite Hc1| |].
    + by rewrite Hc1.
    + rewrite Hc1, Hc2. lia.
  - rewrite <- Hc2. apply contains_appendChild.
  - by rewrite contains_appendChild_other, Hgone, Hgone2.
Qed.

Lemma clones_are_independent_witness :
  element (mkClonedElementData 6) ≠ element (mkClonedElementData 8)
  ∧ exists clone2 d3,
      remove (mkClonedElementData 6)
        (mkDocument (preceding page)
           (appendChild (appendChild (body page) cardClone)
              (removeScrollLimits (cloneNode wrap 8).1)) 9)
      = Return tt d3
      ∧ nid clone2 = element (mkClonedElementData 8)
      ∧ body d3 = appendChild (body page) clone2
      ∧ contains (body d3) (element (mkClonedElementData 8)) = true
      ∧ contains (body d3) (element (mkClonedElementData 6)) = false.
Proof.
  apply (clones_are_independent (TargetId "card") (TargetId "wrap")
           noOptions (mkOptions (Some None) None) page pageAttached).
  - split; repeat constructor.
  - vm_compute. reflexivity.
  - vm_compute. reflexivity.
Defined.

(** ** Identifiers after a clone was attached *)

Lemma elementId_appendChild b c : elementId (appendChild b c) = elementId b.
Proof. by destruct b. Qed.

Lemma findById_appendChild id b c x :
  findById id b = Some x ->
  findById id (appendChild b c)
  = Some (if decide (elementId b = Some id) then appendChild b c else x).
Proof.
  rewrite !findById_unfold, elementId_appendChild.
  case_decide as Hid; [done|].
  replace (children (appendChild b c)) with (children b ++ [c])
    by (by destruct b).
  rewrite omap_app. by destruct (omap (findById id) (children b)).
Qed.

Lemma hd_omap_singleton (f : HTMLElement -> option HTMLElement) b :
  hd_error (omap f [b]) = f b.
Proof. simpl. by destruct (f b). Qed.

Lemma findById_subtree id e x : findById id e = Some x -> x ∈ subtree e.
Proof.
  revert x. induction e as [i t a s cs IH] using HTMLElement_ind. intros x.
  rewrite findById_unfold. case_decide.
  - intros [= <-]. simpl. by left.
  - simpl. intros Hx. right.
    induction IH as [|c r Hc _ IHr]; simpl in *; [done|].
    rewrite elem_of_app. destruct (findById id c) as [y|] eqn:Hy.
    + injection Hx as ->. left. by apply Hc.
    + right. by apply IHr.
Qed.

Lemma getElementById_below d id x :
  allocatorFresh d -> getElementById d id = Some x ->
  (nid x < nextId d)%positive.
Proof.
  intros [Hp Hb]. unfold getElementById.
  assert (Hall : Forall (idsBelow (nextId d)) (preceding d ++ [body d]))
    by (apply Forall_app; split; [done|by constructor]).
  induction Hall as [|e r He _ IH]; simpl; [done|].
  destruct (findById id e) as [y|] eqn:Hy; [|done].
  intros [= ->]. apply findById_subtree in Hy.
  unfold idsBelow in He. rewrite Forall_forall in He. by apply He.
Qed.

(** X10.  An identifier that named a node before [cloneAndAddToDOM] names
    the same node after it, never the clone, although the clone carries
    the same [id] attribute: the clone comes last in tree order.  The
    node found keeps its identity, tag, attributes and inline style. *)
Theorem getElementById_stable `{StyleObject} (target : ElementTarget)
    (options : CloneOptions) (d d' : Document) (data : ClonedElementData)
    (id : string) (x : HTMLElement) :
  allocatorFresh d ->
  getElementById d id = Some x ->
  cloneAndAddToDOM target options d = Return data d' ->
  exists x',
    getElementById d' id = Some x'
    ∧ nid x' = nid x ∧ tagName x' = tagName x
    ∧ attributes x' = attributes x ∧ style x' = style x
    ∧ nid x' ≠ element data.
Proof.
  intros Hd Hx Hrun.
  pose proof (getElementById_below _ _ _ Hd Hx) as Hlt.
  apply cloneAndAddToDOM_returns in Hrun as (e & c & _ & Hc & _ & -> & ->).
  assert (Hsame : exists x',
    getElementById
      (mkDocument (preceding d) (appendChild (body d) c)
                  (cloneNode e (nextId d)).2) id = Some x'
    ∧ nid x' = nid x ∧ tagName x' = tagName x
    ∧ attributes x' = attributes x ∧ style x' = style x).
  { unfold getElementById in *. cbn [preceding body].
    rewrite omap_app in *.
    destruct (omap (findById id) (preceding d)) as [|y r] eqn:Hpre.
    - rewrite app_nil_l, hd_omap_singleton in *.
      rewrite (findById_appendChild _ _ c _ Hx).
      eexists. split; [done|]. case_decide as Hid; [|done].
      rewrite findById_unfold, decide_True in Hx by done.
      injection Hx as <-. by destruct (body d).
    - simpl in *. injection Hx as ->. by exists x. }
  destruct Hsame as (x' & Hx' & Hn & Ht & Ha & Hs).
  exists x'. repeat split; try done. cbn [element]. lia.
Qed.

Lemma getElementById_stable_witness :
  exists x',
    getElementById pageAttached "card" = Some x'
    ∧ nid x' = nid card ∧ tagName x' = tagName card
    ∧ attributes x' = attributes card ∧ style x' = style card
    ∧ nid x' ≠ element (mkClonedElementData 6).
Proof.
  apply (getElementById_stable (TargetId "card") noOptions page).
  - split; repeat constructor.
  - vm_compute. reflexivity.
  - vm_compute. reflexivity.
Defined.

(** ** [checkStyleSeted] *)

Section checkStyleSeted_facts.
Context `{StyleObject}.
Context (matches : HTMLElement -> string -> option bool).





Lemma scanSheets_true_iff e p sheets :
  scanSheets matches e p sheets = true
  <-> exists rules, Some rules ∈ sheets
                    ∧ scanRules matches e p rules = Some true.
Proof.
  induction sheets as [|sheet rest IH]; simpl.
  - split; [done|]. by intros (? & ?%elem_of_nil & _).
  - destruct sheet as [rules|].
    + destruct (scanRules matches e p rules) as [[|]|] eqn:Hs.
      * split; [|done]. intros _. exists rules. split; [by left|done].
      * rewrite IH. split; intros (r & Hin & Hr); exists r; split; try done.
        -- by right.
        -- apply elem_of_cons in Hin as [[= ->]|?]; [congruence|done].
      * rewrite IH. split; intros (r & Hin & Hr); exists r; split; try done.
        -- by right.
        -- apply elem_of_cons in Hin as [[= ->]|?]; [congruence|done].
    + rewrite IH. split; intros (r & Hin & Hr); exists r; split; try done.
      * by right.
      * by apply elem_of_cons in Hin as [?|?].
Qed.

Lemma scanSheets_app e p sheets1 sheets2 :
  scanSheets matches e p (sheets1 ++ sheets2)
  = scanSheets matches e p sheets1 || scanSheets matches e p sheets2.
Proof.
  induction sheets1 as [|sheet rest IH]; simpl; [done|].
  destruct sheet as [rules|]; [|done].
  by destruct (scanRules matches e p rules) as [[|]|].
Qed.


(** X12.  The sheets are probed one by one and independently: over the
    concatenation of two lists of sheets, [checkStyleSeted] answers the
    disjunction of its answers over each list. *)
Theorem checkStyleSeted_app (sheets1 sheets2 : list CSSStyleSheet)
    (element : option HTMLElement) (property : string) :
  checkStyleSeted (sheets1 ++ sheets2) matches element property
  = checkStyleSeted sheets1 matches element property
    || checkStyleSeted sheets2 matches element property.
Proof.
  unfold checkStyleSeted. destruct element as [e|]; [|done].
  case_decide; [done|].
  destruct (hasValue (readStyle (style e) property)); [done|]. apply scanSheets_app.
Qed.

Lemma checkStyleSeted_ext (sheets1 sheets2 : list CSSStyleSheet) element
    property :
  (forall rules, Some rules ∈ sheets1 <-> Some rules ∈ sheets2) ->
  checkStyleSeted sheets1 matches element property
  = checkStyleSeted sheets2 matches element property.
Proof.
  intros Hsame. unfold checkStyleSeted. destruct element as [e|]; [|done].
  case_decide; [done|].
  destruct (hasValue (readStyle (style e) property)); [done|].
  apply eq_true_iff_eq. rewrite !scanSheets_true_iff.
  split; intros (r & Hin & Hr); exists r; split; try done; by apply Hsame.
Qed.

(** X13.  The order of the style sheets does not matter to
    [checkStyleSeted]. *)
Theorem checkStyleSeted_permutation (sheets1 sheets2 : list CSSStyleSheet)
    (element : option HTMLElement) (property : string) :
  sheets1 ≡ₚ sheets2 ->
  checkStyleSeted sheets1 matches element property
  = checkStyleSeted sheets2 matches element property.
Proof.
  intros Hperm. apply checkStyleSeted_ext. intros rules. by rewrite Hperm.
Qed.

(** X14.  A style sheet whose rules cannot be read is skipped and the
    probe goes on: [checkStyleSeted] answers as it does with the
    unreadable sheets taken out of the list. *)
Theorem checkStyleSeted_skips_unreadable (styleSheets : list CSSStyleSheet)
    (element : option HTMLElement) (property : string) :
  checkStyleSeted styleSheets matches element property
  = checkStyleSeted (filter (fun sheet => sheet ≠ None) styleSheets)
      matches element property.
Proof.
  apply checkStyleSeted_ext. intros rules.
  rewrite list_elem_of_filter. split; [done|by intros [_ ?]].
Qed.

End checkStyleSeted_facts.

Lemma checkStyleSeted_permutation_witness :
  checkStyleSeted sheets matchById (Some card) "height"
  = checkStyleSeted (rev sheets) matchById (Some card) "height".
Proof.
  apply (checkStyleSeted_permutation matchById sheets (rev sheets)).
  apply Permutation_rev.
Defined.

(** On the example sheets: [height] is set for the card by the last rule
    of the third sheet, past a rule that is no style rule, a rule that
    gives [auto] and a rule for another element.  [width] is not: the only
    rule that gives it sits behind a selector at which [matches] throws,
    which ends the scan of that sheet. *)
Example checkStyleSeted_card :
  checkStyleSeted sheets matchById (Some card) "height" = true
  ∧ checkStyleSeted sheets matchById (Some card) "width" = false
  ∧ checkStyleSeted sheets matchById (Some card) "maxHeight" = true
  ∧ checkStyleSeted sheets matchById (Some card) "" = false
  ∧ checkStyleSeted sheets matchById None "height" = false.
Proof. by vm_compute. Qed.

(** The inline style object is read under the name as it is given: the
    name of a method, [length] or a dashed name all count as set, on an
    element whose inline style declares something; a property that is
    not declared does not. *)
Example checkStyleSeted_members :
  checkStyleSeted [] matchById (Some para) "getPropertyValue" = true
  ∧ checkStyleSeted [] matchById (Some para) "length" = true
  ∧ checkStyleSeted [] matchById (Some para) "overflow-y" = true
  ∧ checkStyleSeted [] matchById (Some para) "maxHeight" = false.
Proof. by vm_compute. Qed.




(** ** [downloadImage] *)

(** X16.  When the listeners a click reaches leave the children of
    [document.body] alone, [downloadImage] returns and the body is what it
    was before the call.  The click is dispatched on a new [a] element
    whose [href] is the data URL and whose [download] is the file name,
    while that element is the last child of the body. *)
Theorem downloadImage_restores_body
    (click : HTMLElement -> Document -> Document)
    (dataURL filename : string) (d : Document) :
  allocatorFresh d ->
  (forall link d0, body (click link d0) = body d0) ->
  exists link,
    tagName link = "A"
    ∧ attributes link !! "href" = Some dataURL
    ∧ attributes link !! "download" = Some filename
    ∧ downloadImage click dataURL filename d
      = Return tt
          (setBody (body d)
             (click link
                (mkDocument (preceding d) (appendChild (body d) link)
                            (Pos.succ (nextId d))))).
Proof.
  intros Hd Hclick.
  exists (setAttribute "download" filename
            (setAttribute "href" dataURL (Elem (nextId d) "A" ∅ ∅ []))).
  split; [done|]. split; [by simplify_map_eq|]. split; [by simplify_map_eq|].
  unfold downloadImage, bind, createElement, body_appendChild, modify,
    body_removeChild, setBody.
  cbn [body preceding nextId]. rewrite Hclick. cbn [body].
  set (link := setAttribute _ _ _).
  change (nid link) with (nextId d).
  replace (removeChild (appendChild (body d) link) (nextId d))
    with (Some (body d)); [done|].
  symmetry. apply (removeChild_appendChild (body d) link).
  by apply allocatorFresh_children.
Qed.

Lemma downloadImage_restores_body_witness :
  exists link,
    tagName link = "A"
    ∧ attributes link !! "href" = Some "data:image/png;base64,AAAA"
    ∧ attributes link !! "download" = Some "element-capture.png"
    ∧ downloadImage (fun _ d0 => d0) "data:image/png;base64,AAAA"
        "element-capture.png" page
      = Return tt
          (setBody (body page)
             ((fun _ d0 => d0) link
                (mkDocument (preceding page) (appendChild (body page) link)
                            (Pos.succ (nextId page))))).
Proof.
  apply (downloadImage_restores_body (fun _ d0 => d0)).
  - split; repeat constructor.
  - reflexivity.
Defined.
